(** * Weekly Recipes: the API demo panel

    A shallow embedding of [src/components/RecipeApiDemo.tsx]: the hook
    state of the [RecipeApiDemo] component, its event handlers, the
    [callApi] helper and the JSX it returns, followed by the properties
    of the request/response/error state machine.

    The platform is modelled only as far as the component observes it:
    - an address, a URL, a message is a [string];
    - the value of [res.json()] is a [json] tree whose strings are
      sequences of UTF-16 code units and whose numbers carry what the
      component can observe of them, their truthiness and their JSON
      text (it never computes with a number);
    - a [fetch] call settles with a [fetch_outcome] chosen by the
      environment: the promise rejects, or it resolves to a [response]
      whose [text()] and [json()] promises resolve or reject in turn. *)

From Stdlib Require Import String Ascii List ZArith Bool Lia DecimalString.
Import ListNotations.
Open Scope string_scope.

#[local] Set Warnings "-register-all".

(** ** JavaScript values *)

Module Js.

#[local] Open Scope list_scope.

(** A string of the JSON side is a sequence of UTF-16 code units, which
    QuoteJSONString tells apart; [u] gives the code units of an ASCII
    literal. *)
Definition code_unit : Type := N.
Definition ustring : Type := list code_unit.

Fixpoint u (s : string) : ustring :=
  match s with
  | EmptyString => []
  | String c rest => N_of_ascii c :: u rest
  end.

Fixpoint ustring_eqb (a b : ustring) : bool :=
  match a, b with
  | [], [] => true
  | x :: a', y :: b' => (x =? y)%N && ustring_eqb a' b'
  | _, _ => false
  end.

(** A JavaScript number, as far as the component can tell numbers apart:
    whether ToBoolean rejects it (it is [+0], [-0] or [NaN]) and the text
    [JSON.stringify] prints for it (Number::toString, or [null] for a
    number that is not finite). *)
Record number : Type := {
  number_falsy : bool;
  number_json : string
}.

(** Values produced by [JSON.parse]; an object is the list of its own
    properties in enumeration order. *)
Inductive json : Type :=
| JNull
| JBool (b : bool)
| JNumber (n : number)
| JString (s : ustring)
| JArray (items : list json)
| JObject (members : list (ustring * json)).

(** ToBoolean: [null], [false], a zero or [NaN] and the empty string are
    falsy, every array and object is truthy. *)
Definition truthy (v : json) : bool :=
  match v with
  | JNull => false
  | JBool b => b
  | JNumber n => negb (number_falsy n)
  | JString s => match s with [] => false | _ => true end
  | JArray _ => true
  | JObject _ => true
  end.

Definition is_null (v : json) : bool :=
  match v with JNull => true | _ => false end.

(** ToBoolean of a [string | null] state cell. *)
Definition truthy_str (s : option string) : bool :=
  match s with
  | None => false
  | Some t => negb (t =? EmptyString)
  end.

(** What a [catch] clause can receive: an [Error] instance (a
    [TypeError] of [fetch], a [SyntaxError] of the JSON parser, the
    [Error] thrown by [callApi] itself) or any other value, of which only
    [String(e)] is observed. *)
Inductive thrown : Type :=
| ErrorObject (message : string)
| OtherValue (to_string : string).

(** [e instanceof Error ? e.message : String(e)] *)
Definition describe (e : thrown) : string :=
  match e with
  | ErrorObject m => m
  | OtherValue s => s
  end.

(** Number::toString, radix 10, of a status code: its decimal
    numeral. *)
Definition nat_to_string (n : nat) : string :=
  NilZero.string_of_uint (Nat.to_uint n).

Definition chr (n : nat) : string := String (ascii_of_nat n) EmptyString.

Definition dquote : string := chr 34.
Definition backslash : string := chr 92.
Definition newline : string := chr 10.

(** A lowercase hexadecimal digit. *)
Definition hex_digit (d : N) : code_unit :=
  if (d <? 10)%N then (48 + d)%N else (87 + d)%N.

(** UnicodeEscape: a backslash, [u] and four hexadecimal digits. *)
Definition UnicodeEscape (c : code_unit) : ustring :=
  [92; 117;
   hex_digit ((c / 4096) mod 16); hex_digit ((c / 256) mod 16);
   hex_digit ((c / 16) mod 16); hex_digit (c mod 16)]%N.

Definition is_leading_surrogate (c : code_unit) : bool :=
  ((55296 <=? c) && (c <=? 56319))%N.

Definition is_trailing_surrogate (c : code_unit) : bool :=
  ((56320 <=? c) && (c <=? 57343))%N.

(** One code point of QuoteJSONString that is a single code unit: the
    short escapes, then UnicodeEscape for a control character or a
    surrogate without its partner, the unit itself otherwise. *)
Definition quote_unit (c : code_unit) : ustring :=
  (if c =? 8 then [92; 98]
   else if c =? 9 then [92; 116]
   else if c =? 10 then [92; 110]
   else if c =? 12 then [92; 102]
   else if c =? 13 then [92; 114]
   else if c =? 34 then [92; 34]
   else if c =? 92 then [92; 92]
   else if (c <? 32) || is_leading_surrogate c || is_trailing_surrogate c
        then UnicodeEscape c
        else [c])%N.

(** The code points of a string in turn; a surrogate pair is one code
    point and is copied. *)
Fixpoint quote_units (s : ustring) : ustring :=
  match s with
  | [] => []
  | c :: rest =>
      match rest with
      | d :: rest' =>
          if is_leading_surrogate c && is_trailing_surrogate d
          then c :: d :: quote_units rest'
          else quote_unit c ++ quote_units rest
      | [] => quote_unit c
      end
  end.

Definition QuoteJSONString (s : ustring) : ustring :=
  u dquote ++ quote_units s ++ u dquote.

Fixpoint join (sep : ustring) (parts : list ustring) : ustring :=
  match parts with
  | [] => []
  | [p] => p
  | p :: rest => p ++ sep ++ join sep rest
  end.

Fixpoint spaces (n : nat) : ustring :=
  match n with
  | O => []
  | S k => 32%N :: spaces k
  end.

Definition is_empty (s : ustring) : bool :=
  match s with [] => true | _ => false end.

(** The tail of SerializeJSONArray and SerializeJSONObject: [partial]
    holds the serialized elements, [stepback] the indentation of the
    enclosing value and [indent] the indentation of the elements. *)
Definition wrap (opening closing : string) (gap stepback indent : ustring)
    (partial : list ustring) : ustring :=
  match partial with
  | [] => u opening ++ u closing
  | _ =>
      if is_empty gap
      then u opening ++ join (u ",") partial ++ u closing
      else u opening ++ u newline ++ indent
           ++ join (u "," ++ u newline ++ indent) partial
           ++ u newline ++ stepback ++ u closing
  end.

Definition member (gap key value : ustring) : ustring :=
  QuoteJSONString key ++ u ":"
  ++ (if is_empty gap then [] else u " ") ++ value.

(** SerializeJSONProperty on a value that came out of [JSON.parse]. *)
Fixpoint serialize (gap indent : ustring) (v : json) : ustring :=
  match v with
  | JNull => u "null"
  | JBool true => u "true"
  | JBool false => u "false"
  | JNumber n => u (number_json n)
  | JString s => QuoteJSONString s
  | JArray items =>
      wrap "[" "]" gap indent (indent ++ gap)
        (map (serialize gap (indent ++ gap)) items)
  | JObject members =>
      wrap "{" "}" gap indent (indent ++ gap)
        (map (fun kv => member gap (fst kv)
                          (serialize gap (indent ++ gap) (snd kv)))
           members)
  end.

(** [JSON.stringify(value, null, space)] for a numeric [space], which is
    clamped to ten; [JSON.stringify(value)] is the case [space = 0]. *)
Definition JSON_stringify (v : json) (space : nat) : ustring :=
  serialize (spaces (Nat.min 10 space)) [] v.

(** The numbers written as literals in the source and in the examples:
    for these Number::toString is the decimal numeral. *)
Definition Number_0 : number := {| number_falsy := true; number_json := "0" |}.
Definition Number_1 : number := {| number_falsy := false; number_json := "1" |}.
Definition Number_30 : number :=
  {| number_falsy := false; number_json := "30" |}.

End Js.
Import Js.

(** ** Promises that may reject *)

Module Exn.

(** The settlement of an awaited promise: [inl e] when [await] throws
    [e], [inr a] when it evaluates to [a]. *)
Definition exn (A : Type) : Type := (thrown + A)%type.

Definition ret {A} (a : A) : exn A := inr a.
Definition throw {A} (e : thrown) : exn A := inl e.

Definition bind {A B} (c : exn A) (k : A -> exn B) : exn B :=
  match c with
  | inl e => inl e
  | inr a => k a
  end.

End Exn.
Import Exn.

Notation "x <- c ;; k" := (bind c (fun x => k))
  (at level 61, c at next level, right associativity).

(** ** The fetch API, as [callApi] uses it *)

Module Response.

(** The [Response] a [fetch] promise resolves to: its status code and
    the settlements of its [text()] and [json()] promises. *)
Record t : Type := {
  status : nat;
  text : exn string;
  json : exn Js.json
}.

(** [res.ok]: the status is in the range 200-299. *)
Definition ok (res : t) : bool :=
  (200 <=? status res)%nat && (status res <=? 299)%nat.

End Response.

(** How the promise returned by [fetch(url, init)] settles. *)
Inductive fetch_outcome : Type :=
| Rejected (e : thrown)
| Resolved (res : Response.t).

Definition await_fetch (o : fetch_outcome) : exn Response.t :=
  match o with
  | Rejected e => throw e
  | Resolved res => ret res
  end.

(** The [RequestInit] literal of the POST button. *)
Record RequestInit : Type := {
  method : string;
  headers : list (string * string);
  body : ustring
}.

(** One call [fetch(url, init)]; [init] is [None] where [callApi] is
    called with the URL only. *)
Record request : Type := {
  url : string;
  init : option RequestInit
}.

(** ** Hook state of [RecipeApiDemo] *)

Record endpoint_set : Type := {
  listRecipes : string;
  createRecipe : string;
  weeklyPlan : string -> string
}.

(** The cell React keeps for a [useMemo] call: the dependency array and
    the value computed for it. *)
Record memo_cell (A : Type) : Type := {
  memo_deps : list string;
  memo_value : A
}.
Arguments memo_deps {A} _.
Arguments memo_value {A} _.

Fixpoint strings_eqb (xs ys : list string) : bool :=
  match xs, ys with
  | [], [] => true
  | x :: xs', y :: ys' => (x =? y) && strings_eqb xs' ys'
  | _, _ => false
  end.

(** [useMemo(factory, deps)] on a re-render: the factory runs only when a
    dependency differs from the one stored in the cell. *)
Definition useMemo {A} (factory : unit -> A) (deps : list string)
    (cell : memo_cell A) : memo_cell A :=
  if strings_eqb (memo_deps cell) deps
  then cell
  else {| memo_deps := deps; memo_value := factory tt |}.

Record hooks : Type := {
  backend : string;
  isLoading : bool;
  result : json;
  error : option string;
  endpoints_cell : memo_cell endpoint_set
}.

Definition setBackend (v : string) (h : hooks) : hooks :=
  {| backend := v; isLoading := isLoading h; result := result h;
     error := error h; endpoints_cell := endpoints_cell h |}.

Definition setIsLoading (v : bool) (h : hooks) : hooks :=
  {| backend := backend h; isLoading := v; result := result h;
     error := error h; endpoints_cell := endpoints_cell h |}.

Definition setResult (v : json) (h : hooks) : hooks :=
  {| backend := backend h; isLoading := isLoading h; result := v;
     error := error h; endpoints_cell := endpoints_cell h |}.

Definition setError (v : option string) (h : hooks) : hooks :=
  {| backend := backend h; isLoading := isLoading h; result := result h;
     error := v; endpoints_cell := endpoints_cell h |}.

(** The factory of the [endpoints] memo, closed over [backend]. *)
Definition make_endpoints (backend : string) : endpoint_set :=
  {| listRecipes := backend ++ "/api/recipes";
     createRecipe := backend ++ "/api/recipes";
     weeklyPlan := fun date => backend ++ "/api/weeks/" ++ date ++ "/plan" |}.

(** The hook calls of one re-render of the component: the four
    [useState] cells are read back, the memo is revalidated against
    [[backend]]. *)
Definition render (h : hooks) : hooks :=
  {| backend := backend h; isLoading := isLoading h; result := result h;
     error := error h;
     endpoints_cell :=
       useMemo (fun _ => make_endpoints (backend h)) [backend h]
         (endpoints_cell h) |}.

(** The [endpoints] constant that the handlers of the last render close
    over. *)
Definition endpoints (h : hooks) : endpoint_set :=
  memo_value (endpoints_cell h).

(** First render; [envBase] is [import.meta.env.VITE_API_BASE_URL], and
    [??] replaces only an undefined value. *)
Definition mount (envBase : option string) : hooks :=
  let b := match envBase with
           | Some v => v
           | None => "http://localhost:3000"
           end in
  {| backend := b; isLoading := false; result := JNull; error := None;
     endpoints_cell :=
       {| memo_deps := [b]; memo_value := make_endpoints b |} |}.

(** ** [callApi] *)

(** Lines 41-44 up to the first [await]: the two state writes and the
    [fetch] call that is issued. *)
Definition callApi_begin (u : string) (i : option RequestInit)
    (h : hooks) : hooks * request :=
  (setError None (setIsLoading true h), {| url := u; init := i |}).

(** The awaits of the [try] block, given the settlement of [fetch]. *)
Definition try_block (o : fetch_outcome) : exn json :=
  res <- await_fetch o ;;
  if negb (Response.ok res)
  then
    text <- Response.text res ;;
    throw (ErrorObject
             ("HTTP " ++ nat_to_string (Response.status res) ++ ": " ++ text))
  else
    json <- Response.json res ;;
    ret json.

(** The rest of [callApi]: every state write after the last [await]
    happens in one synchronous run, [setResult] in the [try] block or the
    two writes of the [catch] clause, then the [finally] clause. *)
Definition callApi_settle (o : fetch_outcome) (h : hooks) : hooks :=
  let h' :=
    match try_block o with
    | inr json => setResult json h
    | inl e =>
        let msg := describe e in
        setResult JNull (setError (Some msg) h)
    end in
  setIsLoading false h'.

(** ** Event handlers of the returned JSX *)

Inductive action : Type := ListRecipes | CreateRecipe | WeeklyPlan.

Definition sampleRecipe : json :=
  JObject
    [(u "name", JString (u "Miso Soup"));
     (u "steps", JString (u "Boil dashi, add miso."));
     (u "ingredients",
      JArray [JObject [(u "name", JString (u "miso"));
                       (u "quantity", JNumber Number_30);
                       (u "unit", JString (u "GRAM"))]])].

(** The arguments each button's [onClick] passes to [callApi]. *)
Definition onClick_args (eps : endpoint_set) (a : action)
    : string * option RequestInit :=
  match a with
  | ListRecipes => (listRecipes eps, None)
  | CreateRecipe =>
      (createRecipe eps,
       Some {| method := "POST";
               headers := [("Content-Type", "application/json")];
               body := JSON_stringify sampleRecipe 0 |})
  | WeeklyPlan => (weeklyPlan eps "2025-08-25", None)
  end.

Definition onClick (a : action) (h : hooks) : hooks * request :=
  let args := onClick_args (endpoints h) a in
  callApi_begin (fst args) (snd args) h.

(** The [<option>] elements of the select. *)
Inductive select_option : Type := OptEnv | OptNode | OptSpring | OptCustom.

(** The [value] attribute of an option; the ENV option is rendered only
    when [envBase] is truthy. *)
Definition option_value (envBase : option string) (o : select_option)
    : option string :=
  match o with
  | OptEnv => if truthy_str envBase then envBase else None
  | OptNode => Some "http://localhost:3000"
  | OptSpring => Some "http://localhost:8080"
  | OptCustom => Some "custom"
  end.

(** [onChange] of the select and of the text input alike. *)
Definition onChange (target_value : string) (h : hooks) : hooks :=
  setBackend target_value h.

(** ** What the component renders *)

Record view : Type := {
  select_value : string;
  buttons_disabled : bool;
  loading_indicator : bool;
  error_block : option string;
  json_block : option ustring
}.

(** [PrettyJson] *)
Definition PrettyJson (data : json) : ustring := JSON_stringify data 2.

Definition view_of (h : hooks) : view :=
  {| select_value := backend h;
     buttons_disabled := isLoading h;
     loading_indicator := isLoading h;
     error_block := if truthy_str (error h) then error h else None;
     json_block :=
       if truthy (result h) then Some (PrettyJson (result h)) else None |}.

(** ** The mounted panel and its environment *)

(** The component together with the browser around it: the hook state
    of the last render, every [fetch] call issued so far (newest first)
    and the number of [fetch] promises not yet settled. *)
Record world : Type := {
  ui : hooks;
  calls : list request;
  pending : nat
}.

Definition boot (envBase : option string) : world :=
  {| ui := mount envBase; calls := []; pending := 0 |}.

(** What can happen to the mounted panel.  [Click] is a press on a
    button as the re-render after the previous event left it.
    [ClickBeforeRender] is a press that reaches the button before that
    re-render: the [disabled] attribute is still the one of the render
    before, and [callApi] itself has no guard, so the handler runs even
    though [isLoading] has been set.  [Settle] settles one of the
    outstanding [fetch] promises, in any order. *)
Inductive event : Type :=
| SelectChange (o : select_option)
| InputChange (text : string)
| Click (a : action)
| ClickBeforeRender (a : action)
| Settle (o : fetch_outcome).

(** One event followed by the re-render it causes.  Picking an option
    that is not rendered and settling a promise that does not exist are
    impossible ([None]); a click on a disabled button runs no handler. *)
Definition step (envBase : option string) (w : world) (e : event)
    : option world :=
  match e with
  | SelectChange o =>
      match option_value envBase o with
      | Some v =>
          Some {| ui := render (onChange v (ui w));
                  calls := calls w; pending := pending w |}
      | None => None
      end
  | InputChange v =>
      Some {| ui := render (onChange v (ui w));
              calls := calls w; pending := pending w |}
  | Click a =>
      if buttons_disabled (view_of (ui w))
      then Some w
      else
        let started := onClick a (ui w) in
        Some {| ui := render (fst started);
                calls := snd started :: calls w;
                pending := S (pending w) |}
  | ClickBeforeRender a =>
      let started := onClick a (ui w) in
      Some {| ui := render (fst started);
              calls := snd started :: calls w;
              pending := S (pending w) |}
  | Settle o =>
      match pending w with
      | O => None
      | S k =>
          Some {| ui := render (callApi_settle o (ui w));
                  calls := calls w; pending := k |}
      end
  end.

Fixpoint run (envBase : option string) (w : world) (evs : list event)
    : option world :=
  match evs with
  | [] => Some w
  | e :: rest =>
      match step envBase w e with
      | Some w' => run envBase w' rest
      | None => None
      end
  end.

(** ** The request outcome of the specification *)

Inductive outcome : Type :=
| Idle
| Loading
| Success (payload : json)
| Failure (message : string).

(** The outcome read off the three state cells: a request is
    outstanding, or an error message is stored, or a result is stored, or
    the cells hold what they held at mount. *)
Definition outcome_of (h : hooks) : outcome :=
  if isLoading h then Loading
  else match error h with
       | Some m => Failure m
       | None => if is_null (result h) then Idle else Success (result h)
       end.



(** [needle] occurs in [hay]. *)
Definition contains (needle hay : string) : Prop :=
  exists pre post, hay = pre ++ needle ++ post.

Fixpoint starts_with (prefix s : string) : bool :=
  match prefix with
  | EmptyString => true
  | String a prefix' =>
      match s with
      | EmptyString => false
      | String b s' => Ascii.eqb a b && starts_with prefix' s'
      end
  end.

(** [contains], decided. *)
Fixpoint occurs (needle hay : string) : bool :=
  starts_with needle hay
  || match hay with
     | EmptyString => false
     | String _ rest => occurs needle rest
     end.

(** The settlements [callApi] treats as errors of the call itself: the
    [fetch] promise rejects, or a 2xx response has a body that
    [res.json()] cannot parse. *)
Inductive fails_with : fetch_outcome -> thrown -> Prop :=
| transport_failure (e : thrown) :
    fails_with (Rejected e) e
| decode_failure (res : Response.t) (e : thrown) :
    Response.ok res = true ->
    Response.json res = inl e ->
    fails_with (Resolved res) e.

(** The backend address an event writes, if it writes one. *)
Definition address_written (envBase : option string) (e : event)
    : option string :=
  match e with
  | SelectChange o => option_value envBase o
  | InputChange v => Some v
  | _ => None
  end.

Definition is_address_event (e : event) : bool :=
  match e with
  | SelectChange _ | InputChange _ => true
  | _ => false
  end.

Definition is_click (e : event) : bool :=
  match e with
  | Click _ | ClickBeforeRender _ => true
  | _ => false
  end.

(** A press that found the buttons as an earlier render left them. *)
Definition is_early_click (e : event) : bool :=
  match e with
  | ClickBeforeRender _ => true
  | _ => false
  end.

(** No press of the trace came before the re-render: the requests of
    the trace do not overlap. *)
Definition one_at_a_time (evs : list event) : bool :=
  forallb (fun e => negb (is_early_click e)) evs.

(** The settlement of the last request that completed in a trace. *)
Fixpoint last_settled (evs : list event) : option fetch_outcome :=
  match evs with
  | [] => None
  | e :: rest =>
      match last_settled rest with
      | Some o => Some o
      | None => match e with Settle o => Some o | _ => None end
      end
  end.

(** The backend address written last in a trace. *)
Fixpoint last_written (envBase : option string) (evs : list event)
    : option string :=
  match evs with
  | [] => None
  | e :: rest =>
      match last_written envBase rest with
      | Some v => Some v
      | None => address_written envBase e
      end
  end.

(** A 2xx response whose body is the JSON text [null]. *)
Definition null_success (o : fetch_outcome) : bool :=
  match try_block o with
  | inr JNull => true
  | _ => false
  end.

(** The URL each action is expected to hit for a backend address. *)
Definition action_url (b : string) (a : action) : string :=
  match a with
  | ListRecipes => b ++ "/api/recipes"
  | CreateRecipe => b ++ "/api/recipes"
  | WeeklyPlan => b ++ "/api/weeks/2025-08-25/plan"
  end.

(** ** Shape of the POST payload *)

Fixpoint lookup (key : ustring) (members : list (ustring * json))
    : option json :=
  match members with
  | [] => None
  | (k, v) :: rest => if ustring_eqb k key then Some v else lookup key rest
  end.

Fixpoint keys_eqb (xs ys : list ustring) : bool :=
  match xs, ys with
  | [], [] => true
  | x :: xs', y :: ys' => ustring_eqb x y && keys_eqb xs' ys'
  | _, _ => false
  end.

Definition is_string (v : option json) : bool :=
  match v with Some (JString _) => true | _ => false end.

Definition is_number (v : option json) : bool :=
  match v with Some (JNumber _) => true | _ => false end.

(** An object with exactly a string [name], a numeric [quantity] and a
    string [unit]. *)
Definition ingredient_shape (v : json) : bool :=
  match v with
  | JObject ms =>
      keys_eqb (map fst ms) [u "name"; u "quantity"; u "unit"]
      && is_string (lookup (u "name") ms)
      && is_number (lookup (u "quantity") ms)
      && is_string (lookup (u "unit") ms)
  | _ => false
  end.

(** An object with exactly a string [name], a string [steps] and an
    array [ingredients] of ingredient objects. *)
Definition recipe_shape (v : json) : bool :=
  match v with
  | JObject ms =>
      keys_eqb (map fst ms) [u "name"; u "steps"; u "ingredients"]
      && is_string (lookup (u "name") ms)
      && is_string (lookup (u "steps") ms)
      && match lookup (u "ingredients") ms with
         | Some (JArray items) => forallb ingredient_shape items
         | _ => false
         end
  | _ => false
  end.

(** ** Invariants of the mounted panel *)

(** The memo cell holds the endpoints of the current backend address. *)
Definition memo_in_sync (h : hooks) : Prop :=
  endpoints_cell h =
    {| memo_deps := [backend h]; memo_value := make_endpoints (backend h) |}.

(** While the loading flag is up a request is in flight and no error
    is stored. *)
Record consistent (w : world) : Prop := {
  cons_memo : memo_in_sync (ui w);
  cons_pending : isLoading (ui w) = true -> 1 <= pending w;
  cons_error : isLoading (ui w) = true -> error (ui w) = None
}.

(** What holds besides as long as requests do not overlap: the loading
    flag is up exactly while the one request is in flight, and a stored
    error excludes a stored result. *)
Record sequential (w : world) : Prop := {
  seq_pending : pending w = if isLoading (ui w) then 1 else 0;
  seq_error : error (ui w) <> None -> result (ui w) = JNull
}.

(** ** The fixed POST body *)

(** The text [JSON.stringify] yields for the object literal of the POST
    button. *)
Definition sample_body : ustring :=
  let q s := dquote ++ s ++ dquote in
  u ("{" ++ q "name" ++ ":" ++ q "Miso Soup" ++ ","
     ++ q "steps" ++ ":" ++ q "Boil dashi, add miso." ++ ","
     ++ q "ingredients" ++ ":[{" ++ q "name" ++ ":" ++ q "miso" ++ ","
     ++ q "quantity" ++ ":30," ++ q "unit" ++ ":" ++ q "GRAM" ++ "}]}").

(** ** Sample settlements used in the examples below *)

Definition soup : json :=
  JArray [JObject [(u "id", JNumber Number_1);
                   (u "name", JString (u "Soup"))]].

Definition respond (code : nat) (raw : string) (parsed : exn json)
    : Response.t :=
  {| Response.status := code; Response.text := inr raw;
     Response.json := parsed |}.

Definition soup_200 : fetch_outcome :=
  Resolved
    (respond 200
       ("[{" ++ dquote ++ "id" ++ dquote ++ ":1," ++ dquote ++ "name"
        ++ dquote ++ ":" ++ dquote ++ "Soup" ++ dquote ++ "}]")
       (inr soup)).

Definition null_200 : fetch_outcome :=
  Resolved (respond 200 "null" (inr JNull)).

Definition false_200 : fetch_outcome :=
  Resolved (respond 200 "false" (inr (JBool false))).

Definition not_found : Response.t :=
  respond 404 "not found"
    (inl (ErrorObject "Unexpected token 'o', is not valid JSON")).

(** A 502 whose body stream breaks while it is read. *)
Definition bad_gateway : Response.t :=
  {| Response.status := 502;
     Response.text := inl (ErrorObject "network error");
     Response.json := inl (ErrorObject "network error") |}.

Definition unreachable_host : fetch_outcome :=
  Rejected (ErrorObject "Failed to fetch").

Definition garbled_200 : fetch_outcome :=
  Resolved
    (respond 200 "<html>"
       (inl (ErrorObject "Unexpected token '<', is not valid JSON"))).

(** The world a trace leads to from a panel mounted without
    [VITE_API_BASE_URL]. *)
Definition after (evs : list event) : world :=
  match run None (boot None) evs with
  | Some w => w
  | None => boot None
  end.

(** ** Bookkeeping over traces *)

Definition is_settle (e : event) : bool :=
  match e with
  | Settle _ => true
  | _ => false
  end.

(** Every backend address a trace writes, oldest first. *)
Fixpoint written_addresses (envBase : option string) (evs : list event)
    : list string :=
  match evs with
  | [] => []
  | e :: rest =>
      match address_written envBase e with
      | Some v => v :: written_addresses envBase rest
      | None => written_addresses envBase rest
      end
  end.

(** The [fetch] call of a button when the backend address is [b]: the
    URL of the action and, for the POST button only, the init literal. *)
Definition request_for (b : string) (a : action) : request :=
  {| url := action_url b a;
     init := match a with
             | CreateRecipe =>
                 Some {| method := "POST";
                         headers := [("Content-Type", "application/json")];
                         body := sample_body |}
             | _ => None
             end |}.

(** * Properties *)

(** ** Basic facts *)

Lemma strings_eqb_refl (xs : list string) : strings_eqb xs xs = true.
Proof.
  induction xs as [|x xs IH]; simpl; [reflexivity|].
  now rewrite String.eqb_refl.
Qed.

Lemma strings_eqb_eq (xs ys : list string) :
  strings_eqb xs ys = true -> xs = ys.
Proof.
  revert ys; induction xs as [|x xs IH]; intros [|y ys]; simpl;
    try discriminate; [reflexivity|].
  intros H. apply andb_true_iff in H as [Hx Hr].
  apply String.eqb_eq in Hx. f_equal; [exact Hx | now apply IH].
Qed.

Lemma contains_intro (pre needle post : string) :
  contains needle (pre ++ needle ++ post).
Proof. now exists pre, post. Qed.

Lemma append_empty_r (s : string) : s ++ EmptyString = s.
Proof. induction s as [|c s IH]; simpl; [reflexivity | now rewrite IH]. Qed.

Lemma append_assoc (a b c : string) : (a ++ b) ++ c = a ++ b ++ c.
Proof. induction a as [|x a IH]; simpl; [reflexivity | now rewrite IH]. Qed.

Lemma contains_refl (s : string) : contains s s.
Proof. exists EmptyString, EmptyString. simpl. now rewrite append_empty_r. Qed.

(** The outcome is Idle exactly when the three cells hold what they held
    at mount. *)
Lemma outcome_of_idle_iff (h : hooks) :
  outcome_of h = Idle <->
  isLoading h = false /\ result h = JNull /\ error h = None.
Proof.
  unfold outcome_of. split.
  - destruct (isLoading h); [discriminate|].
    destruct (error h); [discriminate|].
    destruct (result h); try discriminate. now intros _.
  - now intros (-> & -> & ->).
Qed.

(** [useMemo] keeps the cell while the dependency is the same string and
    runs the factory when it differs. *)
Lemma useMemo_same {A} (factory : unit -> A) (cell : memo_cell A) :
  useMemo factory (memo_deps cell) cell = cell.
Proof. unfold useMemo. now rewrite strings_eqb_refl. Qed.

Lemma useMemo_changed {A} (factory : unit -> A) (deps : list string)
    (cell : memo_cell A) :
  memo_deps cell <> deps ->
  useMemo factory deps cell = {| memo_deps := deps; memo_value := factory tt |}.
Proof.
  intros Hne. unfold useMemo.
  destruct (strings_eqb (memo_deps cell) deps) eqn:E; [|reflexivity].
  now apply strings_eqb_eq in E.
Qed.

(** ** The invariants hold *)

Lemma render_in_sync (h : hooks) :
  (forall b, memo_deps (endpoints_cell h) = [b] ->
             memo_value (endpoints_cell h) = make_endpoints b) ->
  memo_in_sync (render h).
Proof.
  intros Hcell. unfold memo_in_sync, render, useMemo; simpl.
  destruct (strings_eqb (memo_deps (endpoints_cell h)) [backend h]) eqn:E.
  - apply strings_eqb_eq in E.
    destruct (endpoints_cell h) as [deps value] eqn:Ec; simpl in *.
    subst deps. f_equal. now apply Hcell.
  - reflexivity.
Qed.

Lemma in_sync_cell (h : hooks) :
  memo_in_sync h ->
  forall b, memo_deps (endpoints_cell h) = [b] ->
            memo_value (endpoints_cell h) = make_endpoints b.
Proof.
  unfold memo_in_sync. intros -> b Hb. simpl in *. now inversion Hb.
Qed.

Lemma in_sync_endpoints (h : hooks) :
  memo_in_sync h -> endpoints h = make_endpoints (backend h).
Proof. unfold memo_in_sync, endpoints. now intros ->. Qed.

Lemma callApi_settle_frame (o : fetch_outcome) (h : hooks) :
  backend (callApi_settle o h) = backend h
  /\ endpoints_cell (callApi_settle o h) = endpoints_cell h
  /\ isLoading (callApi_settle o h) = false.
Proof. unfold callApi_settle. now destruct (try_block o). Qed.

Lemma boot_consistent (envBase : option string) : consistent (boot envBase).
Proof. split; simpl; [reflexivity | discriminate | discriminate]. Qed.

(** The state a button's handler leaves behind, guard or no guard. *)
Lemma started_consistent (w : world) (a : action) :
  consistent w ->
  consistent {| ui := render (fst (onClick a (ui w)));
                calls := snd (onClick a (ui w)) :: calls w;
                pending := S (pending w) |}.
Proof.
  intros [Hm _ _]. pose proof (in_sync_cell _ Hm) as Hcell.
  split; simpl; [now apply render_in_sync | intros _; lia | reflexivity].
Qed.

Lemma step_consistent (envBase : option string) (w w' : world) (e : event) :
  consistent w -> step envBase w e = Some w' -> consistent w'.
Proof.
  intros Hw Hs. pose proof Hw as [Hm Hp He].
  pose proof (in_sync_cell _ Hm) as Hcell.
  destruct e as [o|v|a|a|o]; simpl in Hs.
  - destruct (option_value envBase o) as [v|]; [|discriminate].
    inversion Hs; subst w'; clear Hs.
    split; simpl; [now apply render_in_sync | exact Hp | exact He].
  - inversion Hs; subst w'; clear Hs.
    split; simpl; [now apply render_in_sync | exact Hp | exact He].
  - destruct (isLoading (ui w)) eqn:L; inversion Hs; subst w'.
    + exact Hw.
    + now apply started_consistent.
  - inversion Hs; subst w'. now apply started_consistent.
  - destruct (pending w) as [|k] eqn:P; [discriminate|].
    inversion Hs; subst w'; clear Hs.
    destruct (callApi_settle_frame o (ui w)) as (Hb & Hc & Hl).
    split; cbn [ui pending render isLoading error].
    + apply render_in_sync. now rewrite Hc.
    + rewrite Hl. discriminate.
    + rewrite Hl. discriminate.
Qed.

Lemma run_consistent (envBase : option string) (evs : list event) :
  forall w w', consistent w -> run envBase w evs = Some w' -> consistent w'.
Proof.
  induction evs as [|e evs IH]; simpl; intros w w' Hw Hr.
  - now inversion Hr; subst.
  - destruct (step envBase w e) as [w1|] eqn:S1; [|discriminate].
    eapply IH; [|exact Hr]. eapply step_consistent; eassumption.
Qed.

Lemma reachable_consistent (envBase : option string) (evs : list event)
    (w : world) :
  run envBase (boot envBase) evs = Some w -> consistent w.
Proof. apply run_consistent, boot_consistent. Qed.

Lemma run_app (envBase : option string) (xs ys : list event) (w : world) :
  run envBase w (xs ++ ys) =
    match run envBase w xs with
    | Some w' => run envBase w' ys
    | None => None
    end.
Proof.
  revert w; induction xs as [|x xs IH]; intros w; simpl; [reflexivity|].
  destruct (step envBase w x); [apply IH | reflexivity].
Qed.

Lemma contains_occurs (needle hay : string) :
  contains needle hay -> occurs needle hay = true.
Proof.
  intros (pre & post & ->).
  assert (Hstart : forall n t, starts_with n (n ++ t) = true).
  { induction n as [|a n IH]; intros t; simpl; [reflexivity|].
    now rewrite Ascii.eqb_refl, IH. }
  induction pre as [|c pre IH]; simpl.
  - destruct (needle ++ post) eqn:E; simpl; rewrite <- E, Hstart;
      reflexivity.
  - rewrite IH. apply orb_true_r.
Qed.

(** A settlement takes one request out of flight and runs the rest of
    [callApi]. *)
Lemma settle_inversion (envBase : option string) (w w' : world)
    (o : fetch_outcome) :
  step envBase w (Settle o) = Some w' ->
  ui w' = render (callApi_settle o (ui w))
  /\ calls w' = calls w /\ pending w = S (pending w').
Proof.
  intros Hs. simpl in Hs.
  destruct (pending w) as [|k] eqn:P; [discriminate|].
  now inversion Hs.
Qed.

Lemma boot_sequential (envBase : option string) : sequential (boot envBase).
Proof. split; simpl; [reflexivity | intros H; now elim H]. Qed.

Lemma step_sequential (envBase : option string) (w w' : world) (e : event) :
  consistent w -> sequential w -> is_early_click e = false ->
  step envBase w e = Some w' -> sequential w'.
Proof.
  intros [_ _ He] Hw He' Hs. pose proof Hw as [Hp Hx].
  destruct e as [o|v|a|a|o]; try discriminate; simpl in Hs.
  - destruct (option_value envBase o) as [v|]; [|discriminate].
    inversion Hs; subst w'. now split.
  - inversion Hs; subst w'. now split.
  - destruct (isLoading (ui w)) eqn:L; inversion Hs; subst w'.
    + exact Hw.
    + split; simpl; [now rewrite Hp | intros H; now elim H].
  - destruct (pending w) as [|k] eqn:P; [discriminate|].
    inversion Hs; subst w'; clear Hs.
    destruct (isLoading (ui w)) eqn:L; [|discriminate].
    destruct (callApi_settle_frame o (ui w)) as (_ & _ & Hl).
    split; cbn [ui pending render isLoading error result].
    + rewrite Hl. congruence.
    + unfold callApi_settle. destruct (try_block o); simpl; [reflexivity|].
      rewrite (He eq_refl). intros H. now elim H.
Qed.

Lemma reachable_sequential (envBase : option string) (evs : list event) :
  forall w,
    one_at_a_time evs = true ->
    run envBase (boot envBase) evs = Some w ->
    consistent w /\ sequential w.
Proof.
  induction evs as [|e evs IH] using rev_ind; intros w Hone Hr.
  - inversion Hr; subst w. split; [apply boot_consistent|apply boot_sequential].
  - unfold one_at_a_time in *. rewrite forallb_app in Hone.
    apply andb_true_iff in Hone as [Hone He]. simpl in He.
    rewrite andb_true_r in He. apply negb_true_iff in He.
    rewrite run_app in Hr.
    destruct (run envBase (boot envBase) evs) as [w0|]; [|discriminate].
    simpl in Hr. destruct (step envBase w0 e) as [w1|] eqn:S1; [|discriminate].
    inversion Hr; subst w1. destruct (IH _ Hone eq_refl) as [Hc Hs].
    split; [eapply step_consistent | eapply step_sequential]; eassumption.
Qed.

(** Without overlap a settlement always finds the panel loading. *)
Lemma sequential_settle_is_loading (envBase : option string)
    (evs : list event) (w w' : world) (o : fetch_outcome) :
  one_at_a_time evs = true ->
  run envBase (boot envBase) evs = Some w ->
  step envBase w (Settle o) = Some w' ->
  isLoading (ui w) = true.
Proof.
  intros Hone Hr Hs.
  destruct (reachable_sequential _ _ _ Hone Hr) as [_ [Hp _]].
  destruct (settle_inversion _ _ _ _ Hs) as (_ & _ & Hk).
  destruct (isLoading (ui w)); [reflexivity | congruence].
Qed.

(** ** Starting a request *)

(** C1, as stated, fails: a trigger pressed in the Success state leaves
    the stored result in place while the request is outstanding. *)
Lemma trigger_after_success_keeps_result :
  ~ (forall w,
        run None (boot None)
          [Click ListRecipes; Settle soup_200; Click WeeklyPlan] = Some w ->
        isLoading (ui w) = true /\ error (ui w) = None
        /\ result (ui w) = JNull).
Proof.
  intros H.
  destruct (H _ eq_refl) as (_ & _ & Hres). discriminate Hres.
Qed.

(** C1 (amended): pressing any of the three buttons while no request is
    outstanding sets the loading flag and clears the stored error at
    once, with the request still unsettled; the stored result is left as
    it was. *)
Theorem trigger_sets_loading (envBase : option string) (w w' : world)
    (a : action) :
  isLoading (ui w) = false ->
  step envBase w (Click a) = Some w' ->
  isLoading (ui w') = true
  /\ error (ui w') = None
  /\ result (ui w') = result (ui w)
  /\ outcome_of (ui w') = Loading
  /\ pending w' = S (pending w).
Proof.
  intros Hidle Hs. simpl in Hs. rewrite Hidle in Hs.
  inversion Hs; subst w'; clear Hs.
  now repeat split.
Qed.

Lemma trigger_sets_loading_witness :
  let w := after [Click ListRecipes; Settle soup_200] in
  let w' := after [Click ListRecipes; Settle soup_200; Click CreateRecipe] in
  outcome_of (ui w) = Success soup
  /\ isLoading (ui w) = false
  /\ step None w (Click CreateRecipe) = Some w'
  /\ (isLoading (ui w') = true
      /\ error (ui w') = None
      /\ result (ui w') = result (ui w)
      /\ outcome_of (ui w') = Loading
      /\ pending w' = S (pending w)).
Proof.
  intros w w'.
  split; [reflexivity|]. split; [reflexivity|]. split; [reflexivity|].
  apply (trigger_sets_loading None w w' CreateRecipe); reflexivity.
Defined.

(** ** Completing a request *)

(** What [callApi] writes once the request has settled. *)
Lemma callApi_settle_cells (o : fetch_outcome) (h : hooks) :
  isLoading (callApi_settle o h) = false
  /\ match try_block o with
     | inr v =>
         result (callApi_settle o h) = v
         /\ error (callApi_settle o h) = error h
     | inl e =>
         result (callApi_settle o h) = JNull
         /\ error (callApi_settle o h) = Some (describe e)
     end.
Proof. unfold callApi_settle. now destruct (try_block o). Qed.

(** The three ways the [try] block throws, and the one way it does not. *)
Lemma try_block_cases (o : fetch_outcome) :
  match o with
  | Rejected e => try_block o = inl e
  | Resolved res =>
      if Response.ok res
      then try_block o = Response.json res
      else match Response.text res with
           | inl e => try_block o = inl e
           | inr body =>
               try_block o =
                 inl (ErrorObject
                        ("HTTP " ++ nat_to_string (Response.status res)
                         ++ ": " ++ body))
           end
  end.
Proof.
  destruct o as [e|res]; [reflexivity|].
  unfold try_block; simpl.
  destruct (Response.ok res); simpl.
  - now destruct (Response.json res).
  - now destruct (Response.text res).
Qed.


(** Two requests that overlap: the first fails, the second succeeds,
    and both cells are left non-null. *)
Example overlapping_failure_then_success :
  let w := after [Click ListRecipes; ClickBeforeRender ListRecipes;
                  Settle unreachable_host; Settle soup_200] in
  result (ui w) = soup /\ error (ui w) = Some "Failed to fetch"
  /\ isLoading (ui w) = false.
Proof. now repeat split. Qed.



(** C3, as stated, fails: when the body of a 502 response cannot be
    read, the message is that of the read error and the status code is
    not in it. *)
Lemma unreadable_body_drops_status :
  ~ (forall msg,
        error (callApi_settle (Resolved bad_gateway)
                 (ui (after [Click ListRecipes]))) = Some msg ->
        contains (nat_to_string (Response.status bad_gateway)) msg).
Proof.
  intros H. specialize (H "network error" eq_refl).
  apply contains_occurs in H. discriminate H.
Qed.

(** C3 (amended): a response with a status outside 200-299 ends the call
    in Failure with [result] cleared.  When the body text can be read the
    message is [HTTP <status>: <body>], so the decimal status and the raw
    body both occur in it; when reading the body throws, the message is
    the description of what was thrown, without the status. *)
Theorem non_2xx_is_failure (res : Response.t) (h : hooks) :
  Response.ok res = false ->
  let h' := callApi_settle (Resolved res) h in
  (exists msg, outcome_of h' = Failure msg /\ error h' = Some msg)
  /\ result h' = JNull
  /\ (forall body, Response.text res = inr body ->
        error h' =
          Some ("HTTP " ++ nat_to_string (Response.status res) ++ ": " ++ body)
        /\ (forall msg, error h' = Some msg ->
              contains (nat_to_string (Response.status res)) msg
              /\ contains body msg))
  /\ (forall m,
        Response.text res = inl (ErrorObject m)
        \/ Response.text res = inl (OtherValue m) ->
        error h' = Some m).
Proof.
  intros Hok. cbv zeta.
  destruct (callApi_settle_cells (Resolved res) h) as [Hl Hc].
  pose proof (try_block_cases (Resolved res)) as Ht. cbv beta iota in Ht.
  rewrite Hok in Ht.
  generalize dependent (callApi_settle (Resolved res) h). intros h' Hl Hc.
  assert (Hout : forall msg, error h' = Some msg -> outcome_of h' = Failure msg).
  { intros msg Hmsg. unfold outcome_of. now rewrite Hl, Hmsg. }
  destruct (Response.text res) as [e|body] eqn:Et; rewrite Ht in Hc;
    destruct Hc as [Hres Herr].
  - split; [|split; [exact Hres | split; [intros ? [=]|]]].
    + exists (describe e). split; [now apply Hout | exact Herr].
    + intros m [[= ->]|[= ->]]; exact Herr.
  - cbn [describe] in Herr.
    split; [|split; [exact Hres|split]].
    + eexists. split; [apply Hout|]; exact Herr.
    + intros body' [= <-]. split; [exact Herr|].
      intros msg Hmsg. rewrite Herr in Hmsg. injection Hmsg as <-. split.
      * apply (contains_intro "HTTP ").
      * exists ("HTTP " ++ nat_to_string (Response.status res) ++ ": "),
          EmptyString.
        now rewrite append_empty_r, !append_assoc.
    + intros m [[=]|[=]].
Qed.

Lemma non_2xx_is_failure_witness :
  let h' := callApi_settle (Resolved not_found)
              (ui (after [Click ListRecipes])) in
  Response.ok not_found = false
  /\ Response.text not_found = inr "not found"
  /\ outcome_of h' = Failure "HTTP 404: not found"
  /\ contains "404" "HTTP 404: not found"
  /\ contains "not found" "HTTP 404: not found".
Proof.
  intros h'.
  split; [reflexivity|]. split; [reflexivity|]. split; [reflexivity|].
  destruct (non_2xx_is_failure not_found (ui (after [Click ListRecipes]))
              eq_refl)
    as (_ & _ & Hbody & _).
  destruct (Hbody "not found" eq_refl) as [Herr Hin].
  exact (Hin "HTTP 404: not found" Herr).
Defined.

(** The example of the specification, on the mounted panel. *)
Example not_found_example :
  outcome_of (ui (after [Click WeeklyPlan; Settle (Resolved not_found)]))
  = Failure "HTTP 404: not found".
Proof. reflexivity. Qed.

(** C4: when the [fetch] promise rejects, or a 2xx response has a body
    that does not parse, the call ends in Failure and [result] is null
    whatever it held before; the message is the [message] of the [Error]
    that was thrown, or [String(e)] of a thrown value that is not an
    [Error], so that description occurs in the message. *)
Theorem transport_or_decode_failure (o : fetch_outcome) (e : thrown)
    (h : hooks) :
  fails_with o e ->
  let h' := callApi_settle o h in
  result h' = JNull
  /\ forall m, e = ErrorObject m \/ e = OtherValue m ->
       outcome_of h' = Failure m
       /\ error h' = Some m
       /\ (forall msg, error h' = Some msg -> contains m msg).
Proof.
  intros Hf. cbv zeta.
  assert (Ht : try_block o = inl e).
  { pose proof (try_block_cases o) as Hc.
    destruct Hf as [e|res e Hok Hj]; [exact Hc|].
    cbv beta iota in Hc. rewrite Hok in Hc. congruence. }
  destruct (callApi_settle_cells o h) as [Hl Hc].
  rewrite Ht in Hc. destruct Hc as [Hres Herr].
  generalize dependent (callApi_settle o h). intros h' Hl Hres Herr.
  split; [exact Hres|].
  intros m Hm.
  assert (Hd : error h' = Some m) by (destruct Hm as [->| ->]; exact Herr).
  split; [unfold outcome_of; now rewrite Hl, Hd|].
  split; [exact Hd|].
  intros msg Hmsg. rewrite Hd in Hmsg. injection Hmsg as <-.
  apply contains_refl.
Qed.

Lemma transport_or_decode_failure_witness :
  let h := ui (after [Click ListRecipes; Settle soup_200;
                      Click ListRecipes]) in
  let h' := callApi_settle unreachable_host h in
  result h = soup
  /\ fails_with unreachable_host (ErrorObject "Failed to fetch")
  /\ result h' = JNull
  /\ outcome_of h' = Failure "Failed to fetch"
  /\ error h' = Some "Failed to fetch".
Proof.
  intros h h'.
  split; [reflexivity|]. split; [constructor|].
  destruct (transport_or_decode_failure unreachable_host
              (ErrorObject "Failed to fetch") h
              (transport_failure (ErrorObject "Failed to fetch")))
    as [Hres Hmsg].
  split; [exact Hres|].
  destruct (Hmsg "Failed to fetch" (or_introl eq_refl)) as (Hout & Herr & _).
  split; [exact Hout | exact Herr].
Defined.

(** A rejection with a value that is not an [Error] is reported by its
    string form. *)
Example non_error_rejection_example :
  outcome_of (ui (after [Click ListRecipes;
                         Settle (Rejected (OtherValue "timeout"))]))
  = Failure "timeout".
Proof. reflexivity. Qed.

(** The same for a body that is not JSON. *)
Example decode_failure_example :
  let w := after [Click ListRecipes; Settle soup_200; Click WeeklyPlan;
                  Settle garbled_200] in
  outcome_of (ui w)
    = Failure "Unexpected token '<', is not valid JSON"
  /\ result (ui w) = JNull.
Proof. split; reflexivity. Qed.

(** ** Success and what is rendered *)

(** The example of the specification: the array is laid out with two
    spaces per nesting level. *)
Example PrettyJson_soup :
  PrettyJson soup =
    u ("[" ++ newline
       ++ "  {" ++ newline
       ++ "    " ++ dquote ++ "id" ++ dquote ++ ": 1," ++ newline
       ++ "    " ++ dquote ++ "name" ++ dquote ++ ": "
                 ++ dquote ++ "Soup" ++ dquote ++ newline
       ++ "  }" ++ newline
       ++ "]").
Proof. reflexivity. Qed.

(** C5, as stated, fails: a 2xx response whose body is the JSON text
    [false] is stored, but nothing is rendered for it. *)
Lemma falsy_body_is_not_rendered :
  ~ (forall w,
        run None (boot None) [Click ListRecipes; Settle false_200] = Some w ->
        result (ui w) = JBool false
        /\ json_block (view_of (ui w)) = Some (PrettyJson (JBool false))).
Proof.
  intros H. destruct (H _ eq_refl) as [_ Hview]. discriminate Hview.
Qed.

(** C5 (amended): when a request of the mounted panel settles with a 2xx
    response whose body parses to [v], the panel stops loading with
    [result = v], and [error] is left as it was.  If no other request has
    settled since the last trigger (the panel is still loading), which is
    always so when requests do not overlap, there is no error and the
    outcome is Success, or Idle when [v] is [null].  The JSON block is
    absent when [v] is [null], [false], a zero or [NaN], or the empty
    string; otherwise it shows [JSON.stringify(v, null, 2)], which puts
    the elements of a non-empty array or object on lines of their own,
    two spaces further in than the brackets. *)
Theorem success_stores_and_renders (envBase : option string)
    (evs : list event) (w w' : world) (res : Response.t) (v : json) :
  run envBase (boot envBase) evs = Some w ->
  step envBase w (Settle (Resolved res)) = Some w' ->
  Response.ok res = true ->
  Response.json res = inr v ->
  result (ui w') = v
  /\ isLoading (ui w') = false
  /\ error (ui w') = error (ui w)
  /\ json_block (view_of (ui w')) =
       match v with
       | JNull => None
       | JBool false => None
       | JNumber n =>
           if number_falsy n then None else Some (JSON_stringify v 2)
       | JString [] => None
       | _ => Some (JSON_stringify v 2)
       end
  /\ (forall x xs, v = JArray (x :: xs) ->
        JSON_stringify v 2 =
          (u "[" ++ u newline ++ spaces 2
           ++ join (u "," ++ u newline ++ spaces 2)
                (map (serialize (spaces 2) (spaces 2)) (x :: xs))
           ++ u newline ++ u "]")%list)
  /\ (forall k x ms, v = JObject ((k, x) :: ms) ->
        JSON_stringify v 2 =
          (u "{" ++ u newline ++ spaces 2
           ++ join (u "," ++ u newline ++ spaces 2)
                (map (fun kv => QuoteJSONString (fst kv) ++ u ": "
                                ++ serialize (spaces 2) (spaces 2) (snd kv))
                   ((k, x) :: ms))
           ++ u newline ++ u "}")%list)
  /\ (isLoading (ui w) = true ->
        error (ui w') = None
        /\ outcome_of (ui w') = (if is_null v then Idle else Success v))
  /\ (one_at_a_time evs = true -> isLoading (ui w) = true).
Proof.
  intros Hr Hs Hok Hj.
  pose proof (reachable_consistent _ _ _ Hr) as Hcons.
  destruct (settle_inversion _ _ _ _ Hs) as (Hui & _ & _).
  destruct (callApi_settle_cells (Resolved res) (ui w)) as [Hl Hc].
  pose proof (try_block_cases (Resolved res)) as Ht. cbv beta iota in Ht.
  rewrite Hok, Hj in Ht. rewrite Ht in Hc. destruct Hc as [Hres Herr].
  unfold view_of, outcome_of, PrettyJson. rewrite Hui.
  cbn [render result error isLoading json_block].
  rewrite Hl, Hres, Herr.
  split; [reflexivity|]. split; [reflexivity|]. split; [reflexivity|].
  split; [|split; [|split; [|split]]].
  - destruct v as [|[|]|n|[|c s]|items|ms]; try reflexivity.
    cbn [truthy]. now destruct (number_falsy n).
  - now intros x xs ->.
  - now intros k x ms ->.
  - intros Hload. now rewrite (cons_error _ Hcons Hload).
  - intros Hone. eapply sequential_settle_is_loading; eassumption.
Qed.

Lemma success_stores_and_renders_witness :
  let w := after [Click ListRecipes] in
  let w' := after [Click ListRecipes; Settle soup_200] in
  let res := respond 200 "[]" (inr soup) in
  run None (boot None) [Click ListRecipes] = Some w
  /\ step None w (Settle (Resolved res)) = Some w'
  /\ Response.ok res = true
  /\ Response.json res = inr soup
  /\ isLoading (ui w) = true
  /\ result (ui w') = soup
  /\ json_block (view_of (ui w')) = Some (JSON_stringify soup 2)
  /\ error (ui w') = None
  /\ outcome_of (ui w') = Success soup.
Proof.
  intros w w' res.
  split; [reflexivity|]. split; [reflexivity|].
  split; [reflexivity|]. split; [reflexivity|]. split; [reflexivity|].
  destruct (success_stores_and_renders None [Click ListRecipes] w w' res
              soup eq_refl eq_refl eq_refl eq_refl)
    as (Hres & _ & _ & Hview & _ & _ & Hload & _).
  split; [exact Hres|]. split; [exact Hview|]. exact (Hload eq_refl).
Defined.

(** A body [0] is stored and not rendered. *)
Example zero_is_not_rendered :
  let w := after [Click ListRecipes;
                  Settle (Resolved (respond 200 "0"
                                      (inr (JNumber Number_0))))] in
  result (ui w) = JNumber Number_0 /\ json_block (view_of (ui w)) = None.
Proof. split; reflexivity. Qed.

(** A number is rendered by the text the platform prints for it. *)
Example large_number_is_rendered :
  let big := JNumber {| number_falsy := false; number_json := "1e+21" |} in
  json_block
    (view_of (ui (after [Click ListRecipes;
                         Settle (Resolved (respond 200 "1e21" (inr big)))])))
  = Some (u "1e+21").
Proof. reflexivity. Qed.

(** Each nesting level of [PrettyJson] output is indented by two more
    spaces than the level around it. *)
Lemma PrettyJson_array_layout (indent : ustring) (x : json)
    (xs : list json) :
  serialize (spaces 2) indent (JArray (x :: xs)) =
    (u "[" ++ u newline ++ (indent ++ spaces 2)
     ++ join (u "," ++ u newline ++ (indent ++ spaces 2))
          (map (serialize (spaces 2) (indent ++ spaces 2)) (x :: xs))
     ++ u newline ++ indent ++ u "]")%list.
Proof. reflexivity. Qed.

Lemma PrettyJson_object_layout (indent key : ustring) (x : json)
    (ms : list (ustring * json)) :
  serialize (spaces 2) indent (JObject ((key, x) :: ms)) =
    (u "{" ++ u newline ++ (indent ++ spaces 2)
     ++ join (u "," ++ u newline ++ (indent ++ spaces 2))
          (map (fun kv => QuoteJSONString (fst kv) ++ u ": "
                          ++ serialize (spaces 2) (indent ++ spaces 2)
                               (snd kv))
             ((key, x) :: ms))
     ++ u newline ++ indent ++ u "}")%list.
Proof. reflexivity. Qed.

(** QuoteJSONString copies a surrogate pair and escapes a surrogate
    that stands alone. *)
Example QuoteJSONString_surrogates :
  QuoteJSONString [55357; 56832; 55357; 233]%N
  = ([34; 55357; 56832] ++ u (backslash ++ "ud83d")%string ++ [233; 34])%N%list.
Proof. reflexivity. Qed.

(** ** Endpoints *)

(** C6: in every state the mounted panel can reach, the endpoints seen
    by the handlers are those of the current backend address [b]:
    list-recipes and create-recipe are [b/api/recipes] and weekly-plan of
    a date [d] is [b/api/weeks/d/plan]; and any address [b] can be
    written, after which the endpoints are those of [b]. *)
Theorem endpoints_follow_backend (envBase : option string)
    (evs : list event) (w : world) :
  run envBase (boot envBase) evs = Some w ->
  (listRecipes (endpoints (ui w)) = backend (ui w) ++ "/api/recipes"
   /\ createRecipe (endpoints (ui w)) = backend (ui w) ++ "/api/recipes"
   /\ forall d, weeklyPlan (endpoints (ui w)) d
                = backend (ui w) ++ "/api/weeks/" ++ d ++ "/plan")
  /\ forall b, exists w',
       step envBase w (InputChange b) = Some w'
       /\ backend (ui w') = b
       /\ listRecipes (endpoints (ui w')) = b ++ "/api/recipes"
       /\ createRecipe (endpoints (ui w')) = b ++ "/api/recipes"
       /\ forall d, weeklyPlan (endpoints (ui w')) d
                    = b ++ "/api/weeks/" ++ d ++ "/plan".
Proof.
  intros Hr. pose proof (reachable_consistent _ _ _ Hr) as Hw.
  split.
  - rewrite (in_sync_endpoints _ (cons_memo _ Hw)). now repeat split.
  - intros b. eexists. split; [reflexivity|].
    assert (Hw' : consistent
                    {| ui := render (onChange b (ui w));
                       calls := calls w; pending := pending w |}).
    { apply (step_consistent envBase w _ (InputChange b) Hw). reflexivity. }
    rewrite (in_sync_endpoints _ (cons_memo _ Hw')). now repeat split.
Qed.

Lemma endpoints_follow_backend_witness :
  let w := after [SelectChange OptSpring; Click ListRecipes] in
  run None (boot None) [SelectChange OptSpring; Click ListRecipes] = Some w
  /\ listRecipes (endpoints (ui w)) = "http://localhost:8080/api/recipes"
  /\ weeklyPlan (endpoints (ui w)) "2025-08-25"
     = "http://localhost:8080/api/weeks/2025-08-25/plan"
  /\ exists w',
       step None w (InputChange "https://api.example") = Some w'
       /\ weeklyPlan (endpoints (ui w')) "2025-09-01"
          = "https://api.example/api/weeks/2025-09-01/plan".
Proof.
  intros w.
  split; [reflexivity|].
  destruct (endpoints_follow_backend None
              [SelectChange OptSpring; Click ListRecipes] w eq_refl)
    as [(Hl & _ & Hp) Hnext].
  split; [exact Hl|]. split; [exact (Hp "2025-08-25")|].
  destruct (Hnext "https://api.example") as (w' & Hs & _ & _ & _ & Hp').
  exists w'. split; [exact Hs | exact (Hp' "2025-09-01")].
Defined.

(** ** The POST request *)

(** C7: whatever the state of the panel, the create-recipe button calls
    [fetch] with method POST, the single header
    [Content-Type: application/json] and one fixed body: the JSON text of
    an object with a string name, a string steps field and an array of
    ingredient objects, each with a string name, a numeric quantity and a
    string unit. *)
Theorem create_recipe_request (envBase : option string) (w : world) :
  let req := snd (onClick CreateRecipe (ui w)) in
  url req = createRecipe (endpoints (ui w))
  /\ init req =
       Some {| method := "POST";
               headers := [("Content-Type", "application/json")];
               body := sample_body |}
  /\ sample_body = JSON_stringify sampleRecipe 0
  /\ recipe_shape sampleRecipe = true
  /\ step envBase w (Click CreateRecipe) =
       Some (if isLoading (ui w) then w
             else {| ui := render (fst (onClick CreateRecipe (ui w)));
                     calls := req :: calls w;
                     pending := S (pending w) |}).
Proof.
  cbv zeta. split; [reflexivity|]. split; [reflexivity|].
  split; [reflexivity|]. split; [reflexivity|].
  simpl. now destruct (isLoading (ui w)).
Qed.

(** ** Changing the backend address *)

Lemma onClick_url (a : action) (h : hooks) :
  memo_in_sync h -> url (snd (onClick a h)) = action_url (backend h) a.
Proof.
  intros Hm. unfold onClick. rewrite (in_sync_endpoints _ Hm).
  now destruct a.
Qed.

(** An address event writes [backend] and nothing else. *)
Lemma address_step_frame (envBase : option string) (w w' : world)
    (e : event) :
  is_address_event e = true ->
  step envBase w e = Some w' ->
  calls w' = calls w /\ pending w' = pending w
  /\ isLoading (ui w') = isLoading (ui w)
  /\ result (ui w') = result (ui w)
  /\ error (ui w') = error (ui w)
  /\ address_written envBase e = Some (backend (ui w')).
Proof.
  intros He Hs. destruct e as [o|v|a|a|o]; try discriminate; simpl in *.
  - destruct (option_value envBase o) as [v|]; [|discriminate].
    inversion Hs; subst w'. now repeat split.
  - inversion Hs; subst w'. now repeat split.
Qed.

Lemma address_run_frame (envBase : option string) (writes : list event) :
  forall w w',
    forallb is_address_event writes = true ->
    run envBase w writes = Some w' ->
    calls w' = calls w /\ pending w' = pending w
    /\ isLoading (ui w') = isLoading (ui w)
    /\ result (ui w') = result (ui w)
    /\ error (ui w') = error (ui w)
    /\ forall v, last_written envBase writes = Some v -> backend (ui w') = v.
Proof.
  induction writes as [|e writes IH]; intros w w' Hall Hr; simpl in *.
  - inversion Hr; subst w'. repeat split. discriminate.
  - apply andb_true_iff in Hall as [He Hall].
    destruct (step envBase w e) as [w1|] eqn:S1; [|discriminate].
    destruct (address_step_frame _ _ _ _ He S1)
      as (Hc & Hp & Hl & Hres & Herr & Hb).
    destruct (IH _ _ Hall Hr) as (Hc' & Hp' & Hl' & Hres' & Herr' & Hb').
    repeat split; try congruence.
    intros v Hv. destruct (last_written envBase writes) as [v'|] eqn:Lw.
    + now apply Hb'.
    + destruct writes as [|e' writes'].
      * simpl in Hr. inversion Hr; subst w'. congruence.
      * exfalso. simpl in Lw, Hall, Hr.
        apply andb_true_iff in Hall as [He' _].
        destruct (step envBase w1 e') as [w2|] eqn:S2; [|discriminate].
        destruct (address_step_frame _ _ _ _ He' S2) as (_&_&_&_&_&Hw2).
        destruct (last_written envBase writes'); [discriminate|].
        congruence.
Qed.

(** C8: a run of backend-address changes (dropdown or text input) on the
    mounted panel issues no [fetch] call and leaves [isLoading], [result]
    and [error] as they were; the address written last is the backend,
    and the next button pressed calls [fetch] on the URL built from
    it. *)
Theorem address_change_is_silent (envBase : option string)
    (evs writes : list event) (w w' : world) :
  run envBase (boot envBase) evs = Some w ->
  forallb is_address_event writes = true ->
  run envBase w writes = Some w' ->
  calls w' = calls w /\ pending w' = pending w
  /\ isLoading (ui w') = isLoading (ui w)
  /\ result (ui w') = result (ui w)
  /\ error (ui w') = error (ui w)
  /\ forall v a,
       last_written envBase writes = Some v ->
       backend (ui w') = v
       /\ (isLoading (ui w') = false ->
           exists w'' req,
             step envBase w' (Click a) = Some w''
             /\ calls w'' = req :: calls w
             /\ url req = action_url v a).
Proof.
  intros Hr Hall Hw.
  destruct (address_run_frame _ _ _ _ Hall Hw)
    as (Hc & Hp & Hl & Hres & Herr & Hb).
  repeat split; try assumption; [now apply Hb|].
  intros Hidle.
  assert (Hcons : consistent w').
  { eapply run_consistent; [|exact Hw]. eapply reachable_consistent, Hr. }
  exists {| ui := render (fst (onClick a (ui w')));
            calls := snd (onClick a (ui w')) :: calls w';
            pending := S (pending w') |}, (snd (onClick a (ui w'))).
  split; [simpl; now rewrite Hidle|].
  split; [simpl; now rewrite Hc|].
  rewrite (onClick_url _ _ (cons_memo _ Hcons)). now rewrite (Hb v).
Qed.

Lemma address_change_is_silent_witness :
  let writes := [SelectChange OptSpring; InputChange "http://10.0.0.7:9000"] in
  let w := after [Click ListRecipes; Settle soup_200] in
  let w' := after ([Click ListRecipes; Settle soup_200] ++ writes) in
  run None (boot None) [Click ListRecipes; Settle soup_200] = Some w
  /\ forallb is_address_event writes = true
  /\ run None w writes = Some w'
  /\ calls w' = calls w
  /\ result (ui w') = soup
  /\ exists w'' req,
       step None w' (Click WeeklyPlan) = Some w''
       /\ calls w'' = req :: calls w
       /\ url req = "http://10.0.0.7:9000/api/weeks/2025-08-25/plan".
Proof.
  intros writes w w'.
  split; [reflexivity|]. split; [reflexivity|]. split; [reflexivity|].
  destruct (address_change_is_silent None
              [Click ListRecipes; Settle soup_200] writes w w'
              eq_refl eq_refl eq_refl)
    as (Hc & _ & _ & Hres & _ & Hnext).
  split; [exact Hc|]. split; [exact Hres|].
  destruct (Hnext "http://10.0.0.7:9000" WeeklyPlan eq_refl) as [_ Hclick].
  exact (Hclick eq_refl).
Defined.

(** C10: picking the Custom option of the select writes the literal
    string [custom] as the backend address; until a later address change,
    every button calls [fetch] on [custom/api/recipes] or
    [custom/api/weeks/2025-08-25/plan]. *)
Theorem custom_option_is_literal (envBase : option string)
    (evs rest : list event) (w w' w'' : world) (a : action) :
  run envBase (boot envBase) evs = Some w ->
  step envBase w (SelectChange OptCustom) = Some w' ->
  forallb (fun e => negb (is_address_event e)) rest = true ->
  run envBase w' rest = Some w'' ->
  backend (ui w') = "custom"
  /\ backend (ui w'') = "custom"
  /\ url (snd (onClick a (ui w''))) =
       match a with
       | ListRecipes => "custom/api/recipes"
       | CreateRecipe => "custom/api/recipes"
       | WeeklyPlan => "custom/api/weeks/2025-08-25/plan"
       end.
Proof.
  intros Hr Hs Hall Hw.
  assert (Hcons' : consistent w').
  { eapply step_consistent; [|exact Hs]. eapply reachable_consistent, Hr. }
  assert (Hb' : backend (ui w') = "custom").
  { simpl in Hs. now inversion Hs. }
  assert (Hkeep : forall evs2 w1 w2,
             forallb (fun e => negb (is_address_event e)) evs2 = true ->
             run envBase w1 evs2 = Some w2 ->
             backend (ui w2) = backend (ui w1)).
  { induction evs2 as [|e evs2 IH]; intros w1 w2 Hall2 Hrun; simpl in *.
    - now inversion Hrun.
    - apply andb_true_iff in Hall2 as [He Hall2].
      destruct (step envBase w1 e) as [wm|] eqn:Sm; [|discriminate].
      rewrite (IH _ _ Hall2 Hrun).
      destruct e as [o|v|b|b|o]; try discriminate; simpl in Sm.
      + destruct (isLoading (ui w1)); now inversion Sm.
      + now inversion Sm.
      + destruct (pending w1); [discriminate|]. inversion Sm; subst wm.
        cbn [ui render backend].
        now destruct (callApi_settle_frame o (ui w1)) as [-> _]. }
  assert (Hb'' : backend (ui w'') = "custom").
  { now rewrite (Hkeep _ _ _ Hall Hw). }
  split; [exact Hb'|]. split; [exact Hb''|].
  rewrite onClick_url, Hb''.
  - now destruct a.
  - apply cons_memo. eapply run_consistent; eassumption.
Qed.

Lemma custom_option_is_literal_witness :
  let w := after [Click ListRecipes; Settle soup_200] in
  let w' := after [Click ListRecipes; Settle soup_200;
                   SelectChange OptCustom] in
  let rest := [Click ListRecipes; Settle unreachable_host] in
  let w'' := after ([Click ListRecipes; Settle soup_200;
                     SelectChange OptCustom] ++ rest) in
  run None (boot None) [Click ListRecipes; Settle soup_200] = Some w
  /\ step None w (SelectChange OptCustom) = Some w'
  /\ forallb (fun e => negb (is_address_event e)) rest = true
  /\ run None w' rest = Some w''
  /\ (backend (ui w') = "custom"
      /\ backend (ui w'') = "custom"
      /\ url (snd (onClick WeeklyPlan (ui w'')))
         = "custom/api/weeks/2025-08-25/plan").
Proof.
  intros w w' rest w''.
  split; [reflexivity|]. split; [reflexivity|].
  split; [reflexivity|]. split; [reflexivity|].
  apply (custom_option_is_literal None
           [Click ListRecipes; Settle soup_200] rest w w' w'' WeeklyPlan);
    reflexivity.
Defined.

(** The request that follows the Custom option goes to a relative URL. *)
Example custom_then_list :
  map url (calls (after [SelectChange OptCustom; Click ListRecipes]))
  = ["custom/api/recipes"].
Proof. reflexivity. Qed.

(** ** Never idle again? *)

Lemma last_settled_snoc (evs : list event) (e : event) :
  last_settled (evs ++ [e]) =
    match e with
    | Settle o => Some o
    | _ => last_settled evs
    end.
Proof.
  induction evs as [|x evs IH]; simpl.
  - now destruct e.
  - rewrite IH. now destruct e.
Qed.

Lemma any_click_snoc (evs : list event) (e : event) :
  existsb is_click (evs ++ [e]) = existsb is_click evs || is_click e.
Proof. rewrite existsb_app. simpl. now rewrite orb_false_r. Qed.

(** A button's handler leaves the panel loading. *)
Lemma click_leaves_loading (envBase : option string) (w w' : world)
    (e : event) :
  is_click e = true -> step envBase w e = Some w' ->
  isLoading (ui w') = true.
Proof.
  intros He Hs. destruct e as [o|v|a|a|o]; try discriminate; simpl in Hs.
  - destruct (isLoading (ui w)) eqn:L; inversion Hs; subst w';
      [exact L | reflexivity].
  - now inversion Hs.
Qed.

(** C9, as stated, fails: after a request that a 2xx response answers
    with the JSON text [null], the panel is back in its Idle state, cell
    for cell. *)
Lemma null_body_returns_to_idle :
  ~ (forall w,
        run None (boot None) [Click ListRecipes; Settle null_200] = Some w ->
        outcome_of (ui w) <> Idle /\ ui w <> mount None).
Proof.
  intros H. destruct (H _ eq_refl) as [Hout _]. now apply Hout.
Qed.

(** C9 (amended): once a button has been pressed, the mounted panel is
    Loading, Success or Failure and not Idle, except after a request
    settled by a 2xx response whose body parsed to JSON [null]: the
    panel is Idle only if the request settled last was of that kind. *)
Theorem idle_only_after_null_success (envBase : option string)
    (evs : list event) (w : world) :
  run envBase (boot envBase) evs = Some w ->
  existsb is_click evs = true ->
  outcome_of (ui w) = Idle ->
  exists o, last_settled evs = Some o /\ null_success o = true.
Proof.
  revert w. induction evs as [|e evs IH] using rev_ind;
    intros w Hr Hclick Hidle; [discriminate|].
  rewrite run_app in Hr.
  destruct (run envBase (boot envBase) evs) as [w0|] eqn:R0; [|discriminate].
  simpl in Hr.
  destruct (step envBase w0 e) as [w1|] eqn:S1; [|discriminate].
  inversion Hr; subst w1; clear Hr.
  rewrite last_settled_snoc. rewrite any_click_snoc in Hclick.
  apply outcome_of_idle_iff in Hidle as (Hl & Hres & Herr).
  destruct (is_click e) eqn:Ec.
  - rewrite (click_leaves_loading _ _ _ _ Ec S1) in Hl. discriminate.
  - rewrite orb_false_r in Hclick.
    destruct e as [o|v|a|a|o]; try discriminate.
    + destruct (address_step_frame envBase w0 w (SelectChange o) eq_refl S1)
        as (_ & _ & Hl' & Hres' & Herr' & _).
      apply (IH w0 eq_refl Hclick). apply outcome_of_idle_iff.
      repeat split; congruence.
    + destruct (address_step_frame envBase w0 w (InputChange v) eq_refl S1)
        as (_ & _ & Hl' & Hres' & Herr' & _).
      apply (IH w0 eq_refl Hclick). apply outcome_of_idle_iff.
      repeat split; congruence.
    + exists o. split; [reflexivity|].
      destruct (settle_inversion _ _ _ _ S1) as (Hui & _ & _).
      destruct (callApi_settle_cells o (ui w0)) as [_ Hc].
      rewrite Hui in Hres, Herr. cbn [render result error] in Hres, Herr.
      unfold null_success. destruct (try_block o) as [e|v].
      * destruct Hc as [_ Hc]. congruence.
      * destruct Hc as [Hv _]. rewrite Hres in Hv. now subst v.
Qed.

Lemma idle_only_after_null_success_witness :
  let evs := [Click ListRecipes; Settle unreachable_host; Click WeeklyPlan;
              Settle null_200; InputChange "http://localhost:8080"] in
  let w := after evs in
  run None (boot None) evs = Some w
  /\ existsb is_click evs = true
  /\ outcome_of (ui w) = Idle
  /\ exists o, last_settled evs = Some o /\ null_success o = true.
Proof.
  intros evs w.
  split; [reflexivity|]. split; [reflexivity|]. split; [reflexivity|].
  apply (idle_only_after_null_success None evs w); reflexivity.
Defined.

(** * Further properties of the panel *)

(** ** Requests in flight *)

(** X1: while the mounted panel shows the loading indicator, overlapping
    requests or not, at least one request is really in flight, no error
    is stored or shown, and a settlement can be delivered, so the
    indicator never outlives the requests. *)
Theorem loading_means_request_in_flight (envBase : option string)
    (evs : list event) (w : world) (o : fetch_outcome) :
  run envBase (boot envBase) evs = Some w ->
  loading_indicator (view_of (ui w)) = true ->
  1 <= pending w
  /\ error (ui w) = None
  /\ error_block (view_of (ui w)) = None
  /\ exists w', step envBase w (Settle o) = Some w'.
Proof.
  intros Hr Hl. apply reachable_consistent in Hr.
  cbn [view_of loading_indicator] in Hl.
  pose proof (cons_pending _ Hr Hl) as Hp.
  pose proof (cons_error _ Hr Hl) as He.
  split; [exact Hp|]. split; [exact He|].
  split; [cbn [view_of error_block]; now rewrite He|].
  cbn [step]. destruct (pending w); [lia | now eexists].
Qed.

Lemma loading_means_request_in_flight_witness :
  let evs := [Click ListRecipes; ClickBeforeRender WeeklyPlan] in
  let w := after evs in
  run None (boot None) evs = Some w
  /\ loading_indicator (view_of (ui w)) = true
  /\ pending w = 2
  /\ 1 <= pending w
  /\ error (ui w) = None
  /\ exists w', step None w (Settle unreachable_host) = Some w'.
Proof.
  intros evs w. split; [reflexivity|]. split; [reflexivity|].
  split; [reflexivity|].
  destruct (loading_means_request_in_flight None evs w unreachable_host
              eq_refl eq_refl) as (Hp & He & _ & Hs).
  split; [exact Hp|]. split; [exact He | exact Hs].
Defined.

Lemma run_accounting (envBase : option string) (evs : list event) :
  forall w0 w,
    run envBase w0 evs = Some w ->
    length (calls w) + pending w0
    = length (calls w0) + pending w + length (filter is_settle evs)
    /\ length (calls w)
       <= length (calls w0) + length (filter is_click evs).
Proof.
  induction evs as [|e evs IH]; intros w0 w Hr; simpl in Hr.
  - inversion Hr; subst w. simpl. lia.
  - destruct (step envBase w0 e) as [w1|] eqn:S1; [|discriminate].
    destruct (IH _ _ Hr) as [Heq Hle]. clear IH Hr.
    destruct e as [o|v|a|a|o]; simpl in S1; cbn [filter is_settle is_click].
    + destruct (option_value envBase o); [|discriminate].
      inversion S1; subst w1; simpl in *. lia.
    + inversion S1; subst w1; simpl in *. lia.
    + destruct (isLoading (ui w0)); inversion S1; subst w1; simpl in *; lia.
    + inversion S1; subst w1; simpl in *. lia.
    + destruct (pending w0) as [|k] eqn:P; [discriminate|].
      inversion S1; subst w1; simpl in *. lia.
Qed.

(** X2: every [fetch] call the mounted panel has issued is either
    settled or still pending, and no more calls are issued than buttons
    were pressed. *)
Theorem calls_are_accounted_for (envBase : option string)
    (evs : list event) (w : world) :
  run envBase (boot envBase) evs = Some w ->
  length (calls w) = length (filter is_settle evs) + pending w
  /\ length (calls w) <= length (filter is_click evs).
Proof.
  intros Hr. destruct (run_accounting _ _ _ _ Hr) as [Heq Hle].
  simpl in Heq, Hle. lia.
Qed.

Lemma calls_are_accounted_for_witness :
  let evs := [Click ListRecipes; Click WeeklyPlan; Settle soup_200;
              InputChange "http://localhost:8080"; Click CreateRecipe] in
  let w := after evs in
  run None (boot None) evs = Some w
  /\ length (calls w) = 2
  /\ length (calls w) = length (filter is_settle evs) + pending w
  /\ length (calls w) <= length (filter is_click evs).
Proof.
  intros evs w. split; [reflexivity|]. split; [reflexivity|].
  apply (calls_are_accounted_for None evs w). reflexivity.
Defined.

(** X9: as long as every press reaches the buttons after the re-render
    of the event before it, the [disabled] attribute keeps the requests
    apart: at most one is in flight, one exactly while the panel is
    loading, and the error block is never shown together with a JSON
    block. *)
Theorem rendered_buttons_keep_requests_apart (envBase : option string)
    (evs : list event) (w : world) :
  run envBase (boot envBase) evs = Some w ->
  one_at_a_time evs = true ->
  pending w <= 1
  /\ (pending w = 1 <-> buttons_disabled (view_of (ui w)) = true)
  /\ (error (ui w) <> None -> result (ui w) = JNull)
  /\ (error_block (view_of (ui w)) <> None ->
      json_block (view_of (ui w)) = None).
Proof.
  intros Hr Hone.
  destruct (reachable_sequential _ _ _ Hone Hr) as [_ [Hp Hx]].
  cbn [view_of buttons_disabled error_block json_block].
  split; [|split; [|split]].
  - destruct (isLoading (ui w)); lia.
  - destruct (isLoading (ui w)); rewrite Hp; split; congruence.
  - exact Hx.
  - intros Hb. rewrite Hx; [reflexivity|].
    intros He. apply Hb. now rewrite He.
Qed.

Lemma rendered_buttons_keep_requests_apart_witness :
  let evs := [Click ListRecipes; Click WeeklyPlan; Click CreateRecipe] in
  let w := after evs in
  run None (boot None) evs = Some w
  /\ one_at_a_time evs = true
  /\ length (calls w) = 1
  /\ pending w <= 1
  /\ (pending w = 1 <-> buttons_disabled (view_of (ui w)) = true).
Proof.
  intros evs w. split; [reflexivity|]. split; [reflexivity|].
  split; [reflexivity|].
  destruct (rendered_buttons_keep_requests_apart None evs w
              eq_refl eq_refl) as (Hle & Hiff & _).
  split; [exact Hle | exact Hiff].
Defined.

(** ** What is on screen *)

(** X3: the mounted panel never shows the error block together with
    the loading indicator, also when requests overlap: starting a request
    clears the error, and an error is only stored by the code that also
    lowers the loading flag. *)
Theorem error_block_never_with_loading (envBase : option string)
    (evs : list event) (w : world) (msg : string) :
  run envBase (boot envBase) evs = Some w ->
  (error (ui w) = Some msg -> isLoading (ui w) = false)
  /\ (error_block (view_of (ui w)) = Some msg ->
      loading_indicator (view_of (ui w)) = false).
Proof.
  intros Hr. apply reachable_consistent in Hr.
  assert (Hst : error (ui w) = Some msg -> isLoading (ui w) = false).
  { intros He. destruct (isLoading (ui w)) eqn:L; [|reflexivity].
    rewrite (cons_error _ Hr L) in He. discriminate. }
  split; [exact Hst|].
  cbn [view_of error_block loading_indicator]. intros Hb. apply Hst.
  destruct (truthy_str (error (ui w))); [exact Hb | discriminate].
Qed.

Lemma error_block_never_with_loading_witness :
  let evs := [Click ListRecipes; ClickBeforeRender WeeklyPlan;
              Settle (Resolved not_found); Settle soup_200] in
  let w := after evs in
  run None (boot None) evs = Some w
  /\ error_block (view_of (ui w)) = Some "HTTP 404: not found"
  /\ json_block (view_of (ui w)) = Some (PrettyJson soup)
  /\ loading_indicator (view_of (ui w)) = false.
Proof.
  intros evs w. split; [reflexivity|]. split; [reflexivity|].
  split; [reflexivity|].
  destruct (error_block_never_with_loading None evs w "HTTP 404: not found"
              eq_refl) as [_ Hview].
  apply Hview. reflexivity.
Defined.

(** X4: when a request of the mounted panel settles by throwing, the
    error block shows the message of the [Error] (or the string form of
    another thrown value) and no JSON block is shown; if that message is
    the empty string the failure is stored but nothing at all is on
    screen.  When a request settles with a parsed value the error block
    is left as it was. *)
Theorem error_block_after_settle (envBase : option string)
    (evs : list event) (w w' : world) (o : fetch_outcome) :
  run envBase (boot envBase) evs = Some w ->
  step envBase w (Settle o) = Some w' ->
  (forall e m, try_block o = inl e ->
     e = ErrorObject m \/ e = OtherValue m ->
     error (ui w') = Some m
     /\ error_block (view_of (ui w')) =
          (if m =? EmptyString then None else Some m)
     /\ json_block (view_of (ui w')) = None
     /\ loading_indicator (view_of (ui w')) = false)
  /\ (forall v, try_block o = inr v ->
        error_block (view_of (ui w')) = error_block (view_of (ui w))).
Proof.
  intros Hr Hs.
  destruct (settle_inversion _ _ _ _ Hs) as (-> & _ & _).
  destruct (callApi_settle_cells o (ui w)) as [Hl Hc].
  cbn [view_of render error_block json_block loading_indicator
       error result isLoading].
  rewrite Hl. split.
  - intros e m He Hm. rewrite He in Hc. destruct Hc as [Hres Herr].
    assert (Hd : describe e = m) by (destruct Hm as [->| ->]; reflexivity).
    rewrite Hres, Herr, Hd. cbn [truthy_str truthy].
    repeat split. now destruct (m =? EmptyString).
  - intros v Hv. rewrite Hv in Hc. destruct Hc as [_ Herr]. now rewrite Herr.
Qed.

Lemma error_block_after_settle_witness :
  let nameless := Rejected (ErrorObject EmptyString) in
  let w := after [Click ListRecipes; Settle soup_200; Click ListRecipes] in
  let w' := after [Click ListRecipes; Settle soup_200; Click ListRecipes;
                   Settle nameless] in
  run None (boot None) [Click ListRecipes; Settle soup_200;
                        Click ListRecipes] = Some w
  /\ step None w (Settle nameless) = Some w'
  /\ error (ui w') = Some EmptyString
  /\ error_block (view_of (ui w')) = None
  /\ json_block (view_of (ui w')) = None
  /\ loading_indicator (view_of (ui w')) = false.
Proof.
  intros nameless w w'.
  split; [reflexivity|]. split; [reflexivity|].
  destruct (error_block_after_settle None
              [Click ListRecipes; Settle soup_200; Click ListRecipes]
              w w' nameless eq_refl eq_refl) as [Hthrew _].
  exact (Hthrew (ErrorObject EmptyString) EmptyString eq_refl
           (or_introl eq_refl)).
Defined.

(** X5: when a response outside 200-299 has a body that cannot be read,
    the call ends in Failure with the description of the read error as
    its message; the status code is not reported. *)
Theorem unreadable_error_body (res : Response.t) (e : thrown) (h : hooks) :
  Response.ok res = false ->
  Response.text res = inl e ->
  let h' := callApi_settle (Resolved res) h in
  error h' = Some (describe e)
  /\ result h' = JNull
  /\ outcome_of h' = Failure (describe e).
Proof.
  intros Hok Ht. cbv zeta.
  destruct (callApi_settle_cells (Resolved res) h) as [Hl Hc].
  pose proof (try_block_cases (Resolved res)) as Hcase.
  cbv beta iota in Hcase. rewrite Hok, Ht in Hcase. rewrite Hcase in Hc.
  destruct Hc as [Hres Herr].
  unfold outcome_of. now rewrite Hl, Herr, Hres.
Qed.

Lemma unreadable_error_body_witness :
  let res := {| Response.status := 502;
                Response.text := inl (ErrorObject "network error");
                Response.json := inl (ErrorObject "network error") |} in
  let h' := callApi_settle (Resolved res) (ui (after [Click ListRecipes])) in
  Response.ok res = false
  /\ Response.text res = inl (ErrorObject "network error")
  /\ error h' = Some "network error"
  /\ result h' = JNull
  /\ outcome_of h' = Failure "network error".
Proof.
  intros res h'. split; [reflexivity|]. split; [reflexivity|].
  apply (unreadable_error_body res (ErrorObject "network error")
           (ui (after [Click ListRecipes]))); reflexivity.
Defined.

(** ** History *)

Lemma one_at_a_time_snoc (evs : list event) (e : event) :
  one_at_a_time (evs ++ [e]) = one_at_a_time evs && negb (is_early_click e).
Proof.
  unfold one_at_a_time. rewrite forallb_app. simpl. now rewrite andb_true_r.
Qed.

(** A button press or an address change leaves [result] alone. *)
Lemma step_keeps_result (envBase : option string) (w w' : world) (e : event) :
  is_settle e = false -> step envBase w e = Some w' ->
  result (ui w') = result (ui w).
Proof.
  intros He Hs. destruct e as [o|v|a|a|o]; try discriminate; simpl in Hs.
  - destruct (option_value envBase o); [|discriminate]. now inversion Hs.
  - now inversion Hs.
  - destruct (isLoading (ui w)); now inversion Hs.
  - now inversion Hs.
Qed.

(** What the cells hold in terms of the request that settled last. *)
Lemma trace_cells (envBase : option string) (evs : list event) :
  forall w,
    run envBase (boot envBase) evs = Some w ->
    match last_settled evs with
    | None => result (ui w) = JNull
    | Some o =>
        match try_block o with
        | inl e =>
            result (ui w) = JNull
            /\ (isLoading (ui w) = false -> error (ui w) = Some (describe e))
        | inr v =>
            result (ui w) = v
            /\ (one_at_a_time evs = true -> isLoading (ui w) = false ->
                error (ui w) = None)
        end
    end.
Proof.
  induction evs as [|e evs IH] using rev_ind; intros w Hr.
  - now inversion Hr.
  - rewrite run_app in Hr.
    destruct (run envBase (boot envBase) evs) as [w0|] eqn:R0; [|discriminate].
    specialize (IH _ eq_refl). simpl in Hr.
    destruct (step envBase w0 e) as [w1|] eqn:S1; [|discriminate].
    inversion Hr; subst w1; clear Hr.
    rewrite last_settled_snoc, one_at_a_time_snoc.
    destruct (is_settle e) eqn:Es.
    + destruct e as [ | | | |o]; try discriminate.
      destruct (settle_inversion _ _ _ _ S1) as (-> & _ & _).
      destruct (callApi_settle_cells o (ui w0)) as [_ Hc].
      cbn [render result error isLoading].
      destruct (try_block o) as [e|v]; destruct Hc as [Hres Herr].
      * split; [exact Hres | now intros _].
      * split; [exact Hres|]. intros Hone _. rewrite Herr.
        apply andb_true_iff in Hone as [Hone _].
        apply (cons_error _ (reachable_consistent _ _ _ R0)).
        eapply sequential_settle_is_loading; eassumption.
    + rewrite (step_keeps_result _ _ _ _ Es S1).
      assert (Hsame : last_settled evs
                      = match e with
                        | Settle o => Some o
                        | _ => last_settled evs
                        end) by (now destruct e).
      rewrite <- Hsame.
      destruct (is_click e) eqn:Ec.
      * pose proof (click_leaves_loading _ _ _ _ Ec S1) as Hl.
        destruct (last_settled evs) as [o|]; [|exact IH].
        destruct (try_block o); destruct IH as [Hres _];
          (split; [exact Hres|]); rewrite Hl; intros; discriminate.
      * assert (Ha : is_address_event e = true)
          by (destruct e; try discriminate; reflexivity).
        destruct (address_step_frame _ _ _ _ Ha S1)
          as (_ & _ & Hl & _ & Herr & _).
        rewrite Hl, Herr.
        destruct (last_settled evs) as [o|]; [|exact IH].
        destruct (try_block o); [exact IH|].
        destruct IH as [Hres Hnone]. split; [exact Hres|].
        intros Hone. apply Hnone. now apply andb_true_iff in Hone as [-> _].
Qed.

(** X6: [result] of the mounted panel is always the one written for the
    request that settled last, whatever happened before and while other
    requests are outstanding: its parsed value, or null if it threw.
    Once the panel is not loading, [error] is that request's message if
    it threw, and null if it returned a value and requests did not
    overlap. *)
Theorem last_settlement_decides (envBase : option string)
    (evs : list event) (w : world) (o : fetch_outcome) :
  run envBase (boot envBase) evs = Some w ->
  last_settled evs = Some o ->
  result (ui w) = match try_block o with
                  | inr v => v
                  | inl _ => JNull
                  end
  /\ (forall e m, try_block o = inl e ->
        e = ErrorObject m \/ e = OtherValue m ->
        isLoading (ui w) = false ->
        error (ui w) = Some m /\ outcome_of (ui w) = Failure m)
  /\ (forall v, try_block o = inr v ->
        one_at_a_time evs = true ->
        isLoading (ui w) = false ->
        error (ui w) = None
        /\ outcome_of (ui w) = (if is_null v then Idle else Success v)).
Proof.
  intros Hr Hlast.
  pose proof (trace_cells _ _ _ Hr) as Hsum. rewrite Hlast in Hsum.
  destruct (try_block o) as [e|v]; destruct Hsum as [Hres Herr].
  - split; [exact Hres|]. split; [|discriminate].
    intros e' m [= <-] Hm Hl.
    assert (Hd : describe e = m) by (destruct Hm as [->| ->]; reflexivity).
    rewrite <- Hd. split; [now apply Herr|].
    unfold outcome_of. now rewrite Hl, (Herr Hl).
  - split; [exact Hres|]. split; [discriminate|].
    intros v' [= <-] Hone Hl. split; [now apply Herr|].
    unfold outcome_of. now rewrite Hl, (Herr Hone Hl), Hres.
Qed.

Lemma last_settlement_decides_witness :
  let evs := [Click ListRecipes; ClickBeforeRender WeeklyPlan;
              Settle soup_200; SelectChange OptSpring;
              Settle unreachable_host;
              InputChange "http://localhost:3000"] in
  let w := after evs in
  run None (boot None) evs = Some w
  /\ last_settled evs = Some unreachable_host
  /\ isLoading (ui w) = false
  /\ result (ui w) = JNull
  /\ error (ui w) = Some "Failed to fetch"
  /\ outcome_of (ui w) = Failure "Failed to fetch".
Proof.
  intros evs w. split; [reflexivity|]. split; [reflexivity|].
  split; [reflexivity|].
  destruct (last_settlement_decides None evs w unreachable_host
              eq_refl eq_refl) as (Hres & Hthrew & _).
  split; [exact Hres|].
  exact (Hthrew (ErrorObject "Failed to fetch") "Failed to fetch" eq_refl
           (or_introl eq_refl) eq_refl).
Defined.

Lemma step_backend (envBase : option string) (w w' : world) (e : event) :
  step envBase w e = Some w' ->
  backend (ui w') =
    match address_written envBase e with
    | Some v => v
    | None => backend (ui w)
    end.
Proof.
  intros Hs. destruct e as [o|v|a|a|o]; simpl in Hs.
  - cbn [address_written].
    destruct (option_value envBase o); [|discriminate]. now inversion Hs.
  - now inversion Hs.
  - destruct (isLoading (ui w)); now inversion Hs.
  - now inversion Hs.
  - destruct (pending w); [discriminate|]. inversion Hs; subst w'.
    cbn [ui render backend address_written].
    now destruct (callApi_settle_frame o (ui w)) as [-> _].
Qed.

Lemma run_backend (envBase : option string) (evs : list event) :
  forall w0 w,
    run envBase w0 evs = Some w ->
    backend (ui w) =
      match last_written envBase evs with
      | Some v => v
      | None => backend (ui w0)
      end.
Proof.
  induction evs as [|e evs IH]; intros w0 w Hr; simpl in Hr.
  - now inversion Hr.
  - destruct (step envBase w0 e) as [w1|] eqn:S1; [|discriminate].
    rewrite (IH _ _ Hr). cbn [last_written].
    destruct (last_written envBase evs); [reflexivity|].
    now apply step_backend.
Qed.

(** X10: over any trace of the mounted panel, button presses and
    settlements included, the backend address is the one written last by
    the select or the text input, and the address of the first render
    when none was written. *)
Theorem backend_is_last_written (envBase : option string)
    (evs : list event) (w : world) :
  run envBase (boot envBase) evs = Some w ->
  backend (ui w) =
    match last_written envBase evs with
    | Some v => v
    | None => match envBase with
              | Some v => v
              | None => "http://localhost:3000"
              end
    end.
Proof. intros Hr. now rewrite (run_backend _ _ _ _ Hr). Qed.

Lemma backend_is_last_written_witness :
  let evs := [SelectChange OptCustom; InputChange "http://10.0.0.7:9000";
              Click ListRecipes; SelectChange OptSpring;
              Settle unreachable_host; Click WeeklyPlan] in
  let w := after evs in
  run None (boot None) evs = Some w
  /\ backend (ui w) = "http://localhost:8080".
Proof.
  intros evs w. split; [reflexivity|].
  apply (backend_is_last_written None evs w). reflexivity.
Defined.

Lemma onClick_request (a : action) (h : hooks) :
  memo_in_sync h -> snd (onClick a h) = request_for (backend h) a.
Proof.
  intros Hm. unfold onClick. rewrite (in_sync_endpoints _ Hm).
  now destruct a.
Qed.

Lemma run_calls (envBase : option string) (evs : list event) :
  forall w0 w req,
    consistent w0 ->
    run envBase w0 evs = Some w ->
    In req (calls w) ->
    In req (calls w0)
    \/ exists b a,
         In b (backend (ui w0) :: written_addresses envBase evs)
         /\ req = request_for b a.
Proof.
  induction evs as [|e evs IH]; intros w0 w req Hcons Hr Hin; simpl in Hr.
  - inversion Hr; subst w. now left.
  - destruct (step envBase w0 e) as [w1|] eqn:S1; [|discriminate].
    pose proof (step_consistent _ _ _ _ Hcons S1) as Hcons1.
    pose proof (step_backend _ _ _ _ S1) as Hb1.
    destruct (IH _ _ _ Hcons1 Hr Hin) as [Hold|(b & a & Hb & Hreq)].
    + destruct e as [o|v|a|a|o]; simpl in S1.
      * destruct (option_value envBase o); [|discriminate].
        inversion S1; subst w1. now left.
      * inversion S1; subst w1. now left.
      * destruct (isLoading (ui w0)); inversion S1; subst w1; [now left|].
        destruct Hold as [<-|Hold]; [|now left].
        right. exists (backend (ui w0)), a. split; [now left|].
        apply onClick_request, Hcons.
      * inversion S1; subst w1.
        destruct Hold as [<-|Hold]; [|now left].
        right. exists (backend (ui w0)), a. split; [now left|].
        apply onClick_request, Hcons.
      * destruct (pending w0); [discriminate|].
        inversion S1; subst w1. now left.
    + right. exists b, a. split; [|exact Hreq].
      cbn [written_addresses]. rewrite Hb1 in Hb.
      destruct (address_written envBase e) as [v|].
      * destruct Hb as [<-|Hb]; [right; now left | now do 2 right].
      * exact Hb.
Qed.

(** X7: every [fetch] call the mounted panel has issued is the call of
    one of the three buttons for the address of the first render or an
    address written since: a call with no init on [b/api/recipes] or
    [b/api/weeks/2025-08-25/plan], or the POST of the fixed body on
    [b/api/recipes]. *)
Theorem issued_calls_are_button_calls (envBase : option string)
    (evs : list event) (w : world) (req : request) :
  run envBase (boot envBase) evs = Some w ->
  In req (calls w) ->
  exists b a,
    In b (backend (mount envBase) :: written_addresses envBase evs)
    /\ req = request_for b a.
Proof.
  intros Hr Hin.
  destruct (run_calls _ _ _ _ _ (boot_consistent envBase) Hr Hin)
    as [[]|H]; exact H.
Qed.

Lemma issued_calls_are_button_calls_witness :
  let evs := [Click ListRecipes; InputChange "http://10.0.0.7:9000";
              Settle soup_200; Click CreateRecipe] in
  let w := after evs in
  let req := request_for "http://10.0.0.7:9000" CreateRecipe in
  run None (boot None) evs = Some w
  /\ In req (calls w)
  /\ exists b a,
       In b ["http://localhost:3000"; "http://10.0.0.7:9000"]
       /\ req = request_for b a.
Proof.
  intros evs w req. split; [reflexivity|]. split; [now left|].
  apply (issued_calls_are_button_calls None evs w req);
    [reflexivity | now left].
Defined.

(** ** Address changes while a request is in flight *)

Lemma settle_onChange_swap (v : string) (o : fetch_outcome) (h : hooks) :
  memo_in_sync h ->
  render (callApi_settle o (render (onChange v h)))
  = render (onChange v (render (callApi_settle o h))).
Proof.
  unfold memo_in_sync. intros Hm.
  unfold callApi_settle, render, onChange, useMemo.
  destruct (String.eqb (backend h) v) eqn:E;
    destruct (try_block o) as [e|j];
    repeat (cbn; rewrite ?Hm, ?E, ?String.eqb_refl); reflexivity.
Qed.

(** X12: an address change made while a request is outstanding and the
    settlement of that request can come in either order: the panel ends
    in the same state, so the settlement is not affected by the change
    and the change is not undone by the settlement. *)
Theorem settle_commutes_with_address_change (envBase : option string)
    (evs : list event) (w : world) (e : event) (o : fetch_outcome) :
  run envBase (boot envBase) evs = Some w ->
  is_address_event e = true ->
  run envBase w [e; Settle o] = run envBase w [Settle o; e].
Proof.
  intros Hr He. apply reachable_consistent in Hr. destruct Hr as [Hm _ _].
  assert (Hin : forall v,
             run envBase w [InputChange v; Settle o]
             = run envBase w [Settle o; InputChange v]).
  { intros v. cbn [run step ui calls pending].
    destruct (pending w) as [|k]; [reflexivity|].
    cbn [run step ui calls pending].
    now rewrite (settle_onChange_swap v o (ui w) Hm). }
  destruct e as [opt|v|a|a|o']; try discriminate; [|apply Hin].
  specialize (Hin match option_value envBase opt with
                  | Some v => v
                  | None => EmptyString
                  end).
  cbn [run step ui calls pending] in *.
  destruct (option_value envBase opt) as [v|]; [exact Hin|].
  now destruct (pending w).
Qed.

Lemma settle_commutes_with_address_change_witness :
  let w := after [Click ListRecipes] in
  run None (boot None) [Click ListRecipes] = Some w
  /\ is_address_event (SelectChange OptSpring) = true
  /\ run None w [SelectChange OptSpring; Settle soup_200]
     = run None w [Settle soup_200; SelectChange OptSpring]
  /\ run None w [Settle soup_200; SelectChange OptSpring]
     = Some (after [Click ListRecipes; Settle soup_200;
                    SelectChange OptSpring]).
Proof.
  intros w. split; [reflexivity|]. split; [reflexivity|].
  split; [|reflexivity].
  apply (settle_commutes_with_address_change None [Click ListRecipes] w
           (SelectChange OptSpring) soup_200); reflexivity.
Defined.

(** ** The environment default *)

(** X8: the ENV option of the select can be picked exactly when
    [VITE_API_BASE_URL] is a non-empty string, and picking it brings the
    backend address back to the one of the first render.  An empty
    [VITE_API_BASE_URL] is still used as the backend address of the first
    render, with no ENV option on offer, so the buttons call the bare
    paths. *)
Theorem env_option_needs_nonempty_env (envBase : option string)
    (w : world) :
  ((exists w', step envBase w (SelectChange OptEnv) = Some w')
   <-> exists v, envBase = Some v /\ v <> EmptyString)
  /\ (forall w', step envBase w (SelectChange OptEnv) = Some w' ->
        backend (ui w') = backend (mount envBase))
  /\ (envBase = Some EmptyString ->
        step envBase w (SelectChange OptEnv) = None
        /\ backend (mount envBase) = EmptyString
        /\ forall a, url (snd (onClick a (mount envBase)))
                     = action_url EmptyString a).
Proof.
  cbn [step option_value].
  destruct envBase as [v|]; cbn [truthy_str].
  - destruct (String.eqb_spec v EmptyString) as [->|Hne]; cbn [negb].
    + split; [|split].
      * split; [now intros [w' Hw'] | now intros (v & [= <-] & Hv)].
      * discriminate.
      * intros _. split; [reflexivity|]. split; [reflexivity|].
        now intros [].
    + split; [|split].
      * split; [intros _; now exists v | intros _; now eexists].
      * now intros w' [= <-].
      * now intros [= ->].
  - split; [|split].
    + split; [now intros [w' Hw'] | now intros (v & Hv & _)].
    + discriminate.
    + discriminate.
Qed.

(** ** URLs *)

Lemma append_cancel_l (a b c : string) : a ++ b = a ++ c -> b = c.
Proof.
  induction a as [|x a IH]; simpl; [trivial|].
  intros [= H]. now apply IH.
Qed.

Lemma length_append (a b : string) :
  String.length (a ++ b) = String.length a + String.length b.
Proof. induction a as [|x a IH]; simpl; [reflexivity | now rewrite IH]. Qed.

Lemma append_cancel_r (a b t : string) : a ++ t = b ++ t -> a = b.
Proof.
  revert b; induction a as [|x a IH]; intros [|y b] H; simpl in H.
  - reflexivity.
  - apply (f_equal String.length) in H. simpl in H.
    rewrite length_append in H. lia.
  - apply (f_equal String.length) in H. simpl in H.
    rewrite length_append in H. lia.
  - injection H as <- H. f_equal. now apply IH.
Qed.

(** X11: the URL of an endpoint determines what it was built from: two
    backend addresses that give the same list-recipes URL, or the same
    weekly-plan URL for a date, are the same address, and two dates that
    give the same weekly-plan URL on a backend are the same date. *)
Theorem endpoint_urls_are_injective (b1 b2 d1 d2 : string) :
  (listRecipes (make_endpoints b1) = listRecipes (make_endpoints b2) ->
   b1 = b2)
  /\ (weeklyPlan (make_endpoints b1) d1 = weeklyPlan (make_endpoints b2) d1 ->
      b1 = b2)
  /\ (weeklyPlan (make_endpoints b1) d1 = weeklyPlan (make_endpoints b1) d2 ->
      d1 = d2).
Proof.
  cbn [make_endpoints listRecipes weeklyPlan]. split; [|split].
  - apply append_cancel_r.
  - apply append_cancel_r.
  - intros H. apply append_cancel_l in H. apply append_cancel_l in H.
    now apply append_cancel_r in H.
Qed.

(** ** No dead end *)

(** X13: the panel has no state it cannot leave.  When nothing is
    loading a button press is accepted; while the panel is loading a
    settlement can be delivered; and after any settlement, however it
    went and whatever else is still in flight, the next press is accepted
    at once, issues that button's call for the current backend address
    and clears the error. *)
Theorem buttons_work_again_after_settlement (envBase : option string)
    (evs : list event) (w : world) (o : fetch_outcome) (a : action) :
  run envBase (boot envBase) evs = Some w ->
  (isLoading (ui w) = false ->
   exists w', step envBase w (Click a) = Some w'
              /\ calls w' = request_for (backend (ui w)) a :: calls w)
  /\ (isLoading (ui w) = true ->
      exists w1, step envBase w (Settle o) = Some w1)
  /\ (forall w1, step envBase w (Settle o) = Some w1 ->
      exists w',
        step envBase w1 (Click a) = Some w'
        /\ calls w' = request_for (backend (ui w)) a :: calls w
        /\ isLoading (ui w') = true
        /\ error (ui w') = None).
Proof.
  intros Hr. apply reachable_consistent in Hr.
  assert (Hclick : forall w0, consistent w0 -> isLoading (ui w0) = false ->
            exists w', step envBase w0 (Click a) = Some w'
              /\ calls w' = request_for (backend (ui w0)) a :: calls w0
              /\ isLoading (ui w') = true /\ error (ui w') = None).
  { intros w0 Hc Hl. eexists. cbn [step view_of buttons_disabled].
    rewrite Hl. split; [reflexivity|]. cbn [calls ui].
    rewrite (onClick_request a (ui w0) (cons_memo _ Hc)). now repeat split. }
  split; [|split].
  - intros Hl. destruct (Hclick w Hr Hl) as (w' & Hs & Hc & _).
    now exists w'.
  - intros Hl. pose proof (cons_pending _ Hr Hl) as Hp.
    cbn [step]. destruct (pending w); [lia | now eexists].
  - intros w1 S1.
    pose proof (step_consistent _ _ _ _ Hr S1) as Hcons1.
    destruct (settle_inversion _ _ _ _ S1) as (Hui & Hcalls & _).
    destruct (callApi_settle_frame o (ui w)) as (Hb & _ & Hl1).
    assert (Hidle : isLoading (ui w1) = false) by (now rewrite Hui).
    assert (Hback : backend (ui w1) = backend (ui w)) by (now rewrite Hui).
    destruct (Hclick w1 Hcons1 Hidle) as (w' & Hs & Hc & Hl & He).
    exists w'. rewrite Hc, Hback, Hcalls. now repeat split.
Qed.

Lemma buttons_work_again_after_settlement_witness :
  let evs := [Click ListRecipes; ClickBeforeRender WeeklyPlan] in
  let w := after evs in
  let w1 := after (evs ++ [Settle unreachable_host]) in
  run None (boot None) evs = Some w
  /\ step None w (Settle unreachable_host) = Some w1
  /\ pending w1 = 1
  /\ exists w',
       step None w1 (Click CreateRecipe) = Some w'
       /\ calls w'
          = request_for "http://localhost:3000" CreateRecipe :: calls w
       /\ isLoading (ui w') = true
       /\ error (ui w') = None.
Proof.
  intros evs w w1. split; [reflexivity|]. split; [reflexivity|].
  split; [reflexivity|].
  destruct (buttons_work_again_after_settlement None evs w
              unreachable_host CreateRecipe eq_refl) as (_ & _ & Hnext).
  exact (Hnext w1 eq_refl).
Defined.
